(** * ETF_Quant: data ingestion, indicators and dataset merge

    A shallow embedding of [data_fetcher.py] and [github_storage.py].

    Conventions of the embedding:
    - A Python/NumPy float is either [NaN] or a finite number, and finite
      numbers are exact rationals: the rounding error of binary floating
      point arithmetic, overflow and infinities are not modelled.  The
      decimal rounding done by [round(x, 4)] is modelled exactly.
    - A pandas [DataFrame] is the list of its rows, a [Series] the list of
      its values; [None] is [option]'s [None].
    - A Python [dict] is a [gmap].
    - The CSV text that is stored remotely and locally is identified with
      the frame it decodes to.
    - What the outside world answers (quote source, fee pages, the remote
      file store, other writers, the thread scheduler) is an explicit
      argument of the function that asks. *)

From Stdlib Require Import ZArith QArith Qround Lqa String Ascii.
From stdpp Require Import gmap strings list sorting pretty.

Local Open Scope Z_scope.

(* ------------------------------------------------------------------ *)
(** ** Python floats *)
(* ------------------------------------------------------------------ *)

Inductive float : Type :=
  | NaN : float
  | Num (q : Q) : float.

Definition isnan (x : float) : bool :=
  match x with NaN => true | Num _ => false end.

Definition float_lift2 (f : Q → Q → Q) (x y : float) : float :=
  match x, y with
  | Num a, Num b => Num (Qred (f a b))
  | _, _ => NaN
  end.

Definition fadd : float → float → float := float_lift2 Qplus.
Definition fsub : float → float → float := float_lift2 Qminus.
Definition fmul : float → float → float := float_lift2 Qmult.
(** Only used with a non-zero divisor. *)
Definition fdiv : float → float → float := float_lift2 Qdiv.

(** [x >= y]; every comparison with NaN is false. *)
Definition fge (x y : float) : bool :=
  match x, y with
  | Num a, Num b => Qle_bool b a
  | _, _ => false
  end.

(** [x > y] *)
Definition fgt (x y : float) : bool :=
  match x, y with
  | Num a, Num b => negb (Qle_bool a b)
  | _, _ => false
  end.

(** [x <= y] *)
Definition fle (x y : float) : bool := fge y x.

Definition of_int (n : Z) : float := Num (inject_Z n).

(** Nearest integer, ties to the even one. *)
Definition round_half_even (q : Q) : Z :=
  let f := Qfloor q in
  match Qcompare (q - inject_Z f) (1 # 2) with
  | Lt => f
  | Gt => f + 1
  | Eq => if Z.even f then f else f + 1
  end.

(** Python's [round(x, ndigits)] on a float. *)
Definition round (x : float) (ndigits : nat) : float :=
  match x with
  | NaN => NaN
  | Num q =>
      let scale := Pos.pow 10 (Pos.of_nat ndigits) in
      Num (Qred (round_half_even (q * inject_Z (Z.pos scale)) # scale))
  end.

(* ------------------------------------------------------------------ *)
(** ** pandas Series *)
(* ------------------------------------------------------------------ *)

(** [s.iloc[i]], a negative [i] counting from the end.  Out of range pandas
    raises IndexError; every use below is guarded by a length test. *)
Definition iloc (s : list float) (i : Z) : float :=
  let n := Z.of_nat (length s) in
  let j := if i <? 0 then n + i else i in
  if (0 <=? j) && (j <? n) then nth (Z.to_nat j) s NaN else NaN.

Definition fsum (s : list float) : float := foldr fadd (of_int 0) s.

(** Mean of a full window: NaN as soon as one observation is missing. *)
Definition window_mean (w : list float) : float :=
  fdiv (fsum w) (of_int (Z.of_nat (length w))).

(** [s.rolling(window=window).mean()]: [min_periods] defaults to the
    window size. *)
Definition rolling_mean (window : nat) (s : list float) : list float :=
  map (λ i : nat,
         if (S i <? window)%nat then NaN
         else window_mean (take window (drop (S i - window) s)))
      (seq 0 (length s)).

(** One step of pandas' [ewm] kernel with [adjust=False],
    [ignore_na=False]: the state is the running average and the weight
    of the past. *)
Definition ewm_step (alpha : Q) (st : float * Q) (cur : float) : float * Q :=
  let '(weighted, old_wt) := st in
  match weighted with
  | Num w =>
      let old_wt := (old_wt * (1 - alpha))%Q in
      match cur with
      | Num c =>
          if Qeq_bool w c then (Num w, 1%Q)
          else (Num (Qred ((old_wt * w + alpha * c) / (old_wt + alpha))), 1%Q)
      | NaN => (Num w, Qred old_wt)
      end
  | NaN => (cur, old_wt)
  end.

Fixpoint ewm_scan (alpha : Q) (st : float * Q) (s : list float) : list float :=
  match s with
  | [] => []
  | cur :: s' =>
      let st' := ewm_step alpha st cur in
      st'.1 :: ewm_scan alpha st' s'
  end.

(** [s.ewm(span=span, adjust=False).mean()] *)
Definition ewm_mean (span : nat) (s : list float) : list float :=
  match s with
  | [] => []
  | x0 :: s' => x0 :: ewm_scan (2 # Pos.of_nat (span + 1)) (x0, 1%Q) s'
  end.

(** Element-wise arithmetic on aligned series. *)
Definition series_sub (a b : list float) : list float := zip_with fsub a b.
Definition series_scale (k : Z) (a : list float) : list float :=
  map (fmul (of_int k)) a.

(* ------------------------------------------------------------------ *)
(** ** Bars *)
(* ------------------------------------------------------------------ *)

(** A row of a K-line frame; [date] is the day number of the timestamp
    (days since 1970-01-01). *)
Record Bar : Type := mkBar {
  date : Z;
  open : float;
  high : float;
  low : float;
  close : float;
  volume : float
}.

(* ------------------------------------------------------------------ *)
(** ** Indicators *)
(* ------------------------------------------------------------------ *)

Definition REL_ABOVE : string := "≥ 60日均线".
Definition REL_BELOW : string := "< 60日均线".
Definition NA : string := "N/A".
Definition CROSS_UP : string := "上穿60日均线".
Definition CROSS_DOWN : string := "下穿60日均线".
Definition RED_TO_GREEN : string := "红转绿".
Definition GREEN_TO_RED : string := "绿转红".

(** The 4-tuple returned by the two indicator functions. *)
Definition ma60_result : Type := option float * option float * string * string.
Definition macd_result : Type := option float * option float * option float * string.

Definition calculate_ma60_relation (daily_df : option (list Bar)) : ma60_result :=
  match daily_df with
  | None => (None, None, NA, "")
  | Some df =>
      if (length df <? 61)%nat then
        if (60 <=? length df)%nat then
          let close := map close df in
          let ma60 := rolling_mean 60 close in
          let latest_close := round (iloc close (-1)) 4 in
          let latest_ma60 := round (iloc ma60 (-1)) 4 in
          if isnan latest_ma60 then (Some latest_close, None, NA, "")
          else
            let relation :=
              if fge latest_close latest_ma60 then REL_ABOVE else REL_BELOW in
            (Some latest_close, Some latest_ma60, relation, "")
        else (None, None, NA, "")
      else
        let close := map close df in
        let ma60 := rolling_mean 60 close in
        let latest_close := round (iloc close (-1)) 4 in
        let latest_ma60 := round (iloc ma60 (-1)) 4 in
        if isnan latest_ma60 then (Some latest_close, None, NA, "")
        else
          let relation :=
            if fge latest_close latest_ma60 then REL_ABOVE else REL_BELOW in
          let prev_close := iloc close (-2) in
          let prev_ma60 := iloc ma60 (-2) in
          let cross_signal :=
            if negb (isnan prev_ma60) then
              let prev_above := fge prev_close prev_ma60 in
              let curr_above := fge latest_close latest_ma60 in
              if negb prev_above && curr_above then CROSS_UP
              else if prev_above && negb curr_above then CROSS_DOWN
              else ""
            else "" in
          (Some latest_close, Some latest_ma60, relation, cross_signal)
  end.

Definition calculate_weekly_macd_with (fast slow signal : nat)
    (weekly_df : option (list Bar)) : macd_result :=
  match weekly_df with
  | None => (None, None, None, "")
  | Some df =>
      if (length df <? slow + signal)%nat then (None, None, None, "")
      else
        let close := map close df in
        let ema_fast := ewm_mean fast close in
        let ema_slow := ewm_mean slow close in
        let dif := series_sub ema_fast ema_slow in
        let dea := ewm_mean signal dif in
        let macd_hist := series_scale 2 (series_sub dif dea) in
        let curr_macd := iloc macd_hist (-1) in
        let prev_macd :=
          if (2 <=? length macd_hist)%nat then iloc macd_hist (-2)
          else of_int 0 in
        let color_change :=
          if fgt prev_macd (of_int 0) && fle curr_macd (of_int 0)
          then RED_TO_GREEN
          else if fle prev_macd (of_int 0) && fgt curr_macd (of_int 0)
          then GREEN_TO_RED
          else "" in
        (Some (round (iloc dif (-1)) 4),
         Some (round (iloc dea (-1)) 4),
         Some (round curr_macd 4),
         color_change)
  end.

(** The defaults [fast=12, slow=26, signal=9]. *)
Definition calculate_weekly_macd : option (list Bar) → macd_result :=
  calculate_weekly_macd_with 12 26 9.

(* ------------------------------------------------------------------ *)
(** ** Indicator rows and sorting *)
(* ------------------------------------------------------------------ *)

(** One row of the result table; the comment gives the column name. *)
Record Row : Type := mkRow {
  row_date : string;                (* 日期 *)
  row_code : string;                (* 代码 *)
  row_name : string;                (* 名称 *)
  row_mgmt_fee : string;            (* 年管理费率 *)
  row_custody_fee : string;         (* 年托管费率 *)
  row_latest_close : option float;  (* 最新收盘价 *)
  row_ma60 : option float;          (* 60日均线 *)
  row_ma60_rel : string;            (* 价格与60日均线关系 *)
  row_ma_cross : string;            (* 均线穿越 *)
  row_dif : option float;           (* 周MACD_DIF *)
  row_dea : option float;           (* 周MACD_DEA *)
  row_macd : option float;          (* 周MACD柱 *)
  row_macd_turn : string            (* MACD柱转向 *)
}.

(** pandas' [sort_values(by)] with its default [kind='quicksort'] returns
    the rows in ascending order of the key and promises nothing about the
    order of rows with equal keys.  The sort is therefore a parameter of
    the model, known only through this contract. *)
Class Sorting : Type := {
  sort_by : ∀ {A : Type}, (A → A → bool) → list A → list A;
  sort_by_perm : ∀ (A : Type) (leb : A → A → bool) (l : list A),
    sort_by leb l ≡ₚ l;
  sort_by_sorted : ∀ (A : Type) (leb : A → A → bool) (l : list A),
    (∀ x y, leb x y = true ∨ leb y x = true) →
    (∀ x y z, leb x y = true → leb y z = true → leb x z = true) →
    StronglySorted (λ x y, leb x y = true) (sort_by leb l)
}.

(** A sort is stable when rows with equal keys keep their input order. *)
Definition stable (S : Sorting) : Prop :=
  ∀ (A : Type) (leb : A → A → bool) (l : list A) (x : A),
    (∀ x y, leb x y = true ∨ leb y x = true) →
    (∀ x y z, leb x y = true → leb y z = true → leb x z = true) →
    filter (λ y, leb x y = true ∧ leb y x = true) (sort_by leb l)
    = filter (λ y, leb x y = true ∧ leb y x = true) l.

(** Insertion sort, the stable reference implementation used to run the
    model on concrete inputs. *)
Fixpoint insert_sorted {A : Type} (leb : A → A → bool) (x : A) (l : list A)
    : list A :=
  match l with
  | [] => [x]
  | y :: l' => if leb x y then x :: y :: l' else y :: insert_sorted leb x l'
  end.

Definition insertion_sort {A : Type} (leb : A → A → bool) (l : list A)
    : list A :=
  foldr (insert_sorted leb) [] l.

(** Another sort that meets the contract: insertion sort run over the
    reversed input, which hands back rows with equal keys in the reverse
    of their input order. *)
Definition reversing_sort {A : Type} (leb : A → A → bool) (l : list A)
    : list A :=
  insertion_sort leb (rev l).

Definition date_leb (a b : Row) : bool := String.leb (row_date a) (row_date b).
Definition bar_leb (a b : Bar) : bool := date a <=? date b.

(** The key of the dataset invariant. *)
Definition row_key (r : Row) : string * string := (row_code r, row_date r).

(* ------------------------------------------------------------------ *)
(** ** github_storage.py *)
(* ------------------------------------------------------------------ *)

(** The remote CSV file: the rows it decodes to and its blob SHA, the
    version token that the Contents API demands for an update. *)
Record RemoteFile : Type := mkRemoteFile {
  rf_rows : list Row;
  rf_sha : nat
}.

Inductive request : Type :=
  | GET_raw (token : string)
  | GET_contents (token : string)
  | PUT_contents (token message : string) (content : list Row)
                 (sha : option nat).

(** The repository as this client sees it: the file (if it exists), the
    supply of fresh SHAs, and the requests this client has sent. *)
Record GitHub : Type := mkGitHub {
  remote : option RemoteFile;
  fresh_sha : nat;
  requests : list request
}.

Definition dataset (w : GitHub) : list Row :=
  match remote w with Some f => rf_rows f | None => [] end.

(** What happens around one HTTP request: another writer may commit a
    new version just before the request is served, and the request may
    fail in transport (exception, timeout, unexpected status). *)
Record exchange : Type := mkExchange {
  intervening : option (list Row);
  served : bool
}.

(** The network during one call, per request the call can send. *)
Record Net : Type := mkNet {
  on_raw : exchange;
  on_api : exchange;
  on_sha : exchange;
  on_put : exchange
}.

Definition undisturbed : exchange := mkExchange None true.
Definition quiet : Net := mkNet undisturbed undisturbed undisturbed undisturbed.

(** State passing over the repository. *)
Definition Remote (A : Type) : Type := GitHub → A * GitHub.

Definition ret {A : Type} (a : A) : Remote A := λ w, (a, w).
Definition bind {A B : Type} (m : Remote A) (k : A → Remote B) : Remote B :=
  λ w, let '(a, w') := m w in k a w'.

Notation "x <- m ;; k" := (bind m (λ x, k))
  (at level 100, m at next level, right associativity).

(** A commit accepted by the server: new content under a fresh SHA. *)
Definition commit (rows : list Row) (w : GitHub) : GitHub :=
  mkGitHub (Some (mkRemoteFile rows (fresh_sha w))) (S (fresh_sha w))
           (requests w).

Definition others_write (e : exchange) : Remote () :=
  λ w, match intervening e with
       | Some rows => ((), commit rows w)
       | None => ((), w)
       end.

Definition send (r : request) : Remote () :=
  λ w, ((), mkGitHub (remote w) (fresh_sha w) (requests w ++ [r])).

Inductive response (A : Type) : Type :=
  | Ok (a : A)          (* 200 / 201 *)
  | NotFound            (* 404 *)
  | Rejected            (* 409 stale sha, 422 missing sha *)
  | Failed.             (* exception, timeout, any other status *)
Arguments Ok {A} a.
Arguments NotFound {A}.
Arguments Rejected {A}.
Arguments Failed {A}.

(** GET of the file, through the raw host or the Contents API. *)
Definition http_get (e : exchange) (r : request) : Remote (response RemoteFile) :=
  _ <- send r ;;
  _ <- others_write e ;;
  λ w, if served e
       then match remote w with
            | Some f => (Ok f, w)
            | None => (NotFound, w)
            end
       else (Failed, w).

(** PUT to the Contents API: creates the file when it does not exist and
    no SHA is given, replaces it when the SHA given is the current one. *)
Definition http_put (e : exchange) (token message : string)
    (content : list Row) (sha : option nat) : Remote (response ()) :=
  _ <- send (PUT_contents token message content sha) ;;
  _ <- others_write e ;;
  λ w, if served e
       then match remote w, sha with
            | None, None => (Ok (), commit content w)
            | Some f, Some s =>
                if decide (s = rf_sha f) then (Ok (), commit content w)
                else (Rejected, w)
            | Some _, None => (Rejected, w)
            | None, Some _ => (Rejected, w)
            end
       else (Failed, w).

Definition read_csv_from_github (net : Net) (token : string)
    : Remote (list Row) :=
  resp <- http_get (on_raw net) (GET_raw token) ;;
  match resp with
  | Ok f => ret (rf_rows f)
  | NotFound => ret []
  | _ =>
      resp <- http_get (on_api net) (GET_contents token) ;;
      match resp with
      | Ok f => ret (rf_rows f)
      | NotFound => ret []
      | _ => ret []
      end
  end.

Definition _get_file_sha (net : Net) (token : string) : Remote (option nat) :=
  resp <- http_get (on_sha net) (GET_contents token) ;;
  match resp with
  | Ok f => ret (Some (rf_sha f))
  | _ => ret None
  end.

Definition write_csv_to_github (net : Net) (token : string)
    (df : option (list Row)) (message : string) : Remote bool :=
  match df with
  | None | Some [] => ret false
  | Some rows =>
      let message :=
        if decide (message = "") then
          "📊 Update ETF data (" +:+ pretty (length rows) +:+ " rows)"
        else message in
      sha <- _get_file_sha net token ;;
      resp <- http_put (on_put net) token message rows sha ;;
      match resp with
      | Ok _ => ret true
      | _ => ret false
      end
  end.

(** Lines 157-167 of [append_data_to_github]: drop the existing rows of
    the new dates, append the new rows, sort by date.  Every frame of
    rows has the date column. *)
Definition merge_frames `{Sorting} (existing new_data : list Row) : list Row :=
  let combined :=
    match existing with
    | _ :: _ =>
        let new_dates := remove_dups (map row_date new_data) in
        let existing :=
          filter (λ r, row_date r ∉ new_dates) existing in
        existing ++ new_data
    | [] => new_data
    end in
  sort_by date_leb combined.

Definition append_data_to_github `{Sorting} (net : Net) (token : string)
    (new_data : option (list Row)) : Remote bool :=
  match new_data with
  | None | Some [] => ret false
  | Some ((first :: _) as rows) =>
      existing <- read_csv_from_github net token ;;
      let combined := merge_frames existing rows in
      let date_str := row_date first in
      let message :=
        "📊 Update ETF data for " +:+ date_str +:+ " ("
        +:+ pretty (length rows) +:+ " ETFs)" in
      write_csv_to_github net token (Some combined) message
  end.

(* ------------------------------------------------------------------ *)
(** ** data_fetcher.py: the local CSV *)
(* ------------------------------------------------------------------ *)

(** The local file system: path to decoded CSV content. *)
Definition save_to_csv (new_data : option (list Row)) (csv_path : string)
    (fs : gmap string (list Row)) : gmap string (list Row) :=
  match new_data with
  | None | Some [] => fs
  | Some ((first :: _) as rows) =>
      let combined :=
        match fs !! csv_path with
        | Some existing =>
            let latest_date := row_date first in
            let existing :=
              filter (λ r, row_date r ≠ latest_date) existing in
            existing ++ rows
        | None => rows
        end in
      <[csv_path := combined]> fs
  end.

Definition load_from_csv (csv_path : string) (fs : gmap string (list Row))
    : list Row :=
  match fs !! csv_path with
  | Some rows => rows
  | None => []
  end.

(* ------------------------------------------------------------------ *)
(** ** data_fetcher.py: series fetcher and resampler *)
(* ------------------------------------------------------------------ *)

Definition _get_sina_symbol (code : string) : string :=
  if String.prefix "15" code then "sz" +:+ code else "sh" +:+ code.

(** [str.zfill(width)]: zeros go after a leading sign. *)
Definition zfill (width : nat) (s : string) : string :=
  let zeros := string_of_list_ascii (replicate (width - String.length s) "0"%char) in
  match s with
  | String c rest =>
      if bool_decide (c = "+"%char ∨ c = "-"%char)
      then String c (zeros +:+ rest)
      else zeros +:+ s
  | EmptyString => zeros
  end.

(** [dict(zip(keys, values))]: a later pair overrides an earlier one. *)
Definition dict_of_pairs {V : Type} (kvs : list (string * V)) : gmap string V :=
  foldl (λ m kv, <[kv.1 := kv.2]> m) ∅ kvs.

(** [ak.fund_name_em()] either raises or returns the (code, name) columns. *)
Definition get_etf_name_map (fund_name_em : option (list (string * string)))
    : gmap string string :=
  match fund_name_em with
  | Some df => dict_of_pairs (map (λ kv, (zfill 6 kv.1, kv.2)) df)
  | None => ∅
  end.

(** A row as the quote source hands it over: the date may fail to parse
    ([pd.to_datetime] raises), the close may fail to convert
    ([pd.to_numeric(errors="coerce")] gives NaN). *)
Record RawBar : Type := mkRawBar {
  raw_date : option Z;
  raw_open : float;
  raw_high : float;
  raw_low : float;
  raw_close : option float;
  raw_volume : float
}.

(** What [ak.fund_etf_hist_sina(symbol)] does: raise, or return a frame
    or [None]. *)
Inductive quote_reply : Type :=
  | Raises
  | Returns (df : option (list RawBar)).

Definition to_numeric (x : option float) : float :=
  match x with Some v => v | None => NaN end.

(** Parse one row; [None] when [pd.to_datetime] raises on it. *)
Definition parse_bar (r : RawBar) : option Bar :=
  d ← raw_date r;
  Some (mkBar d (raw_open r) (raw_high r) (raw_low r)
              (to_numeric (raw_close r)) (raw_volume r)).

Definition get_etf_daily_kline_sina `{Sorting}
    (fund_etf_hist_sina : string → quote_reply) (code : string)
    : option (list Bar) :=
  let symbol := _get_sina_symbol code in
  match fund_etf_hist_sina symbol with
  | Raises => None
  | Returns None => None
  | Returns (Some []) => Some []
  | Returns (Some raw) =>
      df ← mapM parse_bar raw;
      Some (sort_by bar_leb df)
  end.

(** The week (ending on Sunday) a day falls in; day 3 is Sunday
    1970-01-04. *)
Definition week_of (d : Z) : Z := (d + 3) `div` 7.

(** Aggregations of [resample(...).agg]: missing values are skipped. *)
Definition observed (s : list float) : list float :=
  filter (λ x, isnan x = false) s.
Definition agg_first (s : list float) : float := hd NaN (observed s).
Definition agg_last (s : list float) : float := List.last (observed s) NaN.
Definition fmax (x y : float) : float := if fge x y then x else y.
Definition fmin (x y : float) : float := if fle x y then x else y.
Definition agg_max (s : list float) : float :=
  match observed s with [] => NaN | x :: xs => foldl fmax x xs end.
Definition agg_min (s : list float) : float :=
  match observed s with [] => NaN | x :: xs => foldl fmin x xs end.
Definition agg_sum (s : list float) : float := fsum (observed s).

(** The bar of week [w], or nothing when [dropna] removes it. *)
Definition weekly_bar (df : list Bar) (w : Z) : option Bar :=
  let rows := filter (λ b, week_of (date b) = w) df in
  let bar := mkBar (7 * w + 3)
                   (agg_first (map open rows)) (agg_max (map high rows))
                   (agg_min (map low rows)) (agg_last (map close rows))
                   (agg_sum (map volume rows)) in
  if isnan (open bar) || isnan (high bar) || isnan (low bar)
     || isnan (close bar) || isnan (volume bar)
  then None else Some bar.

Definition resample_daily_to_weekly (daily_df : option (list Bar))
    : option (list Bar) :=
  match daily_df with
  | None | Some [] => None
  | Some ((b :: bs) as df) =>
      let first_week := foldl Z.min (week_of (date b)) (map (week_of ∘ date) bs) in
      let last_week := foldl Z.max (week_of (date b)) (map (week_of ∘ date) bs) in
      Some (omap (weekly_bar df)
                 (seqZ first_week (last_week - first_week + 1)))
  end.

(** [Timestamp.strftime("%Y-%m-%d")] of a day number (proleptic
    Gregorian calendar). *)
Definition civil_from_days (z : Z) : Z * Z * Z :=
  let z := z + 719468 in
  let era := z `div` 146097 in
  let doe := z - era * 146097 in
  let yoe := (doe - doe `div` 1460 + doe `div` 36524 - doe `div` 146096) `div` 365 in
  let doy := doe - (365 * yoe + yoe `div` 4 - yoe `div` 100) in
  let mp := (5 * doy + 2) `div` 153 in
  let d := doy - (153 * mp + 2) `div` 5 + 1 in
  let m := if mp <? 10 then mp + 3 else mp - 9 in
  let y := yoe + era * 400 + (if m <=? 2 then 1 else 0) in
  (y, m, d).

Definition strftime_ymd (z : Z) : string :=
  let '(y, m, d) := civil_from_days z in
  zfill 4 (pretty y) +:+ "-" +:+ zfill 2 (pretty m) +:+ "-" +:+ zfill 2 (pretty d).

(** [get_fund_fees_scrape]: the page fetch fails ([None]) or yields what
    the two patterns match. *)
Definition get_fund_fees_scrape
    (eastmoney : string → option (option string * option string))
    (code : string) : string * string :=
  match eastmoney code with
  | None => (NA, NA)
  | Some (mgmt_match, custody_match) =>
      (default NA mgmt_match, default NA custody_match)
  end.

(* ------------------------------------------------------------------ *)
(** ** data_fetcher.py: worker pools and progress *)
(* ------------------------------------------------------------------ *)

(** One call of the progress callback. *)
Definition progress_event : Type := Q * string.

(** [_progress]: the fraction is capped at 0.99. *)
Definition _progress (pct : Q) (msg : string) : progress_event :=
  (if Qle_bool pct 0.99 then pct else 0.99%Q, msg).

(** A [ThreadPoolExecutor] running one task per code.  A task blocks in
    its network call, then bumps the shared counter and decides whether
    to report; the call of the callback is a later step of its own, so
    tasks of other workers can run in between. *)
Record pool_state : Type := mkPool {
  queue : list string;        (* submitted, no worker yet *)
  running : list string;      (* inside the network call *)
  reporting : list (string * progress_event);
                              (* counted, callback not yet called *)
  counter : nat;              (* completed_d[0] / completed_f[0] *)
  delivered : list progress_event;   (* callback calls so far *)
  finished : list string;     (* futures done, in as_completed order *)
  peak : nat                  (* most reports ever pending together *)
}.

Inductive action : Type :=
  | Start               (* a free worker takes the next task *)
  | Return (j : nat)    (* the network call of running task j returns *)
  | Report (j : nat).   (* pending report j reaches the callback *)

Definition enabled (max_workers : nat) (st : pool_state) : list action :=
  (if bool_decide (queue st ≠ []
                   ∧ (length (running st) + length (reporting st) < max_workers)%nat)
   then [Start] else [])
  ++ (Return <$> seq 0 (length (running st)))
  ++ (Report <$> seq 0 (length (reporting st))).

Definition step (report_of : nat → option progress_event) (a : action)
    (st : pool_state) : pool_state :=
  match a with
  | Start =>
      match queue st with
      | code :: rest =>
          mkPool rest (running st ++ [code]) (reporting st) (counter st)
                 (delivered st) (finished st) (peak st)
      | [] => st
      end
  | Return j =>
      match running st !! j with
      | Some code =>
          let completed := S (counter st) in
          match report_of completed with
          | Some ev =>
              let pending := reporting st ++ [(code, ev)] in
              mkPool (queue st) (delete j (running st)) pending completed
                     (delivered st) (finished st)
                     (peak st `max` length pending)
          | None =>
              mkPool (queue st) (delete j (running st)) (reporting st)
                     completed (delivered st) (finished st ++ [code])
                     (peak st)
          end
      | None => st
      end
  | Report j =>
      match reporting st !! j with
      | Some (code, ev) =>
          mkPool (queue st) (running st) (delete j (reporting st))
                 (counter st) (delivered st ++ [ev]) (finished st ++ [code])
                 (peak st)
      | None => st
      end
  end.

(** The scheduler is a list of choices: each picks one of the enabled
    actions (modulo their number; 0 when the list is used up). *)
Fixpoint run_pool (max_workers : nat) (report_of : nat → option progress_event)
    (fuel : nat) (choices : list nat) (st : pool_state) : pool_state :=
  match fuel with
  | O => st
  | S fuel' =>
      match enabled max_workers st with
      | [] => st
      | (a0 :: _) as acts =>
          let k := hd 0%nat choices in
          let a := nth (k `mod` length acts) acts a0 in
          run_pool max_workers report_of fuel' (tl choices)
                   (step report_of a st)
      end
  end.

(** Submit every code and wait for the pool to drain: each task takes at
    most three steps. *)
Definition thread_pool (max_workers : nat)
    (report_of : nat → option progress_event) (codes : list string)
    (choices : list nat) : pool_state :=
  run_pool max_workers report_of (3 * length codes) choices
           (mkPool codes [] [] 0 [] [] 0).

Definition nat_to_Q (n : nat) : Q := inject_Z (Z.of_nat n).

(** The report of [_fetch_daily] once [completed] tasks are counted. *)
Definition daily_report (total completed : nat) : option progress_event :=
  if (completed `mod` 50 =? 0)%nat || (completed =? total)%nat then
    let pct := (0.05 + 0.50 * (nat_to_Q completed / nat_to_Q total))%Q in
    Some (_progress pct ("正在获取日K线数据 (" +:+ pretty completed +:+ "/"
                         +:+ pretty total +:+ ")..."))
  else None.

(** The report of [_fetch_fee]. *)
Definition fee_report (missing completed : nat) : option progress_event :=
  if (completed `mod` 50 =? 0)%nat || (completed =? missing)%nat then
    let pct := (0.62 + 0.30 * (nat_to_Q completed / nat_to_Q missing))%Q in
    Some (_progress pct ("正在获取费率数据 (" +:+ pretty completed +:+ "/"
                         +:+ pretty missing +:+ ")..."))
  else None.

(* ------------------------------------------------------------------ *)
(** ** data_fetcher.py: fetch_all_etf_data *)
(* ------------------------------------------------------------------ *)

(** Everything outside the process during one run. *)
Record World : Type := mkWorld {
  fund_name_em : option (list (string * string));
  fund_etf_hist_sina : string → quote_reply;
  fees_cache_file : gmap string (gmap string string);  (* load_fees_cache() *)
  eastmoney : string → option (option string * option string);
  today : string;              (* datetime.now().strftime("%Y-%m-%d") *)
  daily_schedule : list nat;   (* scheduler of the K-line pool *)
  fee_schedule : list nat      (* scheduler of the fee pool *)
}.

(** Step 2: the K-line pool, 10 workers. *)
Definition daily_pool (ETF_CODES : list string) (w : World) : pool_state :=
  thread_pool 10 (daily_report (length ETF_CODES)) ETF_CODES (daily_schedule w).

Definition daily_data `{Sorting} (ETF_CODES : list string) (w : World)
    : gmap string (option (list Bar)) :=
  foldl (λ m code,
           <[code := get_etf_daily_kline_sina (fund_etf_hist_sina w) code]> m)
        ∅ (finished (daily_pool ETF_CODES w)).

(** Step 3 *)
Definition weekly_data `{Sorting} (ETF_CODES : list string) (w : World)
    : gmap string (option (list Bar)) :=
  foldl (λ m code,
           <[code := resample_daily_to_weekly
                       (mjoin (daily_data ETF_CODES w !! code))]> m)
        ∅ ETF_CODES.

(** Step 4: the fee pool, 8 workers, over the codes missing in the cache. *)
Definition missing_fee_codes (ETF_CODES : list string) (w : World) : list string :=
  filter (λ c, fees_cache_file w !! c = None) ETF_CODES.

Definition fee_pool (ETF_CODES : list string) (w : World) : pool_state :=
  let missing := missing_fee_codes ETF_CODES w in
  match missing with
  | [] => mkPool [] [] [] 0 [] [] 0
  | _ :: _ => thread_pool 8 (fee_report (length missing)) missing (fee_schedule w)
  end.

Definition fees_cache (ETF_CODES : list string) (w : World)
    : gmap string (gmap string string) :=
  foldl (λ m code,
           let '(mgmt, custody) := get_fund_fees_scrape (eastmoney w) code in
           <[code := {[ "mgmt" := mgmt; "custody" := custody ]}]> m)
        (fees_cache_file w) (finished (fee_pool ETF_CODES w)).

(** Step 5: the row of one code. *)
Definition build_row `{Sorting} (ETF_CODES : list string) (w : World)
    (code : string) : Row :=
  let name := default code (get_etf_name_map (fund_name_em w) !! code) in
  let fees := default ∅ (fees_cache ETF_CODES w !! code) in
  let mgmt_fee := default NA (fees !! "mgmt") in
  let custody_fee := default NA (fees !! "custody") in
  let d_df := mjoin (daily_data ETF_CODES w !! code) in
  let '(latest_close, ma60_val, ma60_rel, ma_cross) :=
    calculate_ma60_relation d_df in
  let w_df := mjoin (weekly_data ETF_CODES w !! code) in
  let '(dif, dea, macd, macd_turn) := calculate_weekly_macd w_df in
  let date_str :=
    match d_df with
    | Some (b :: bs) => strftime_ymd (List.last bs b).(date)
    | _ => today w
    end in
  mkRow date_str code name mgmt_fee custody_fee latest_close ma60_val
        ma60_rel ma_cross dif dea macd macd_turn.

(** What a run hands back: the table and the calls of the callback. *)
Record Run : Type := mkRun {
  snapshot : list Row;
  progress : list progress_event
}.

Definition fetch_all_etf_data `{Sorting} (ETF_CODES : list string) (w : World)
    : Run :=
  let total := length ETF_CODES in
  let missing := missing_fee_codes ETF_CODES w in
  mkRun
    (map (build_row ETF_CODES w) ETF_CODES)
    ([_progress 0.01 "正在获取ETF名称数据..."]
     ++ [_progress 0.05 ("正在获取日K线数据 (共" +:+ pretty total +:+ "只)...")]
     ++ delivered (daily_pool ETF_CODES w)
     ++ [_progress 0.58 "正在计算周K线数据..."]
     ++ [_progress 0.62 "正在获取费率数据..."]
     ++ delivered (fee_pool ETF_CODES w)
     ++ [_progress 0.94 "正在计算技术指标并构建结果..."]
     ++ [(1.0%Q, "数据获取完成！")]).

Definition fractions (r : Run) : list Q := map fst (progress r).

(* ------------------------------------------------------------------ *)
(** ** github_storage.py: the token *)
(* ------------------------------------------------------------------ *)

(** [if token:] holds for a string that is there and not empty. *)
Definition truthy (token : option string) : option string :=
  match token with
  | Some t => if decide (t = "") then None else Some t
  | None => None
  end.

(** [get_github_token]: [secret] is what [st.secrets.get("GT")] gives
    ([None] also when Streamlit or its secrets raise), [env] what
    [os.environ.get("GT")] gives. *)
Definition get_github_token (secret env : option string) : option string :=
  match truthy secret with
  | Some token => Some token
  | None =>
      match truthy env with
      | Some token => Some token
      | None => None
      end
  end.

(* ------------------------------------------------------------------ *)
(** ** app.py *)
(* ------------------------------------------------------------------ *)

(** The machine a script runs on: its local CSV files and the
    repository it talks to. *)
Record Machine : Type := mkMachine {
  files : gmap string (list Row);
  github : GitHub
}.

Definition LOCAL_CSV_PATH : string := "ETF_Quant.csv".

(** [load_data], one call that is not answered from Streamlit's cache. *)
Definition load_data (secret env : option string) (net : Net) (m : Machine)
    : list Row * Machine :=
  let local m := (load_from_csv LOCAL_CSV_PATH (files m), m) in
  match get_github_token secret env with
  | Some token =>
      let '(df, gh) := read_csv_from_github net token (github m) in
      match df with
      | _ :: _ => (df, mkMachine (<[LOCAL_CSV_PATH := df]> (files m)) gh)
      | [] => local (mkMachine (files m) gh)
      end
  | None => local m
  end.

(** What [fetch_and_save_data] leaves on the page: the values given to
    the progress bar and the status line. *)
Inductive status : Type :=
  | Updated (count : nat) (date_str github_msg : string)
  | Fetch_failed.

Record Screen : Type := mkScreen {
  bar : list Q;
  status_text : status
}.

(** The callback handed to the fetcher: [min(pct, 1.0)]. *)
Definition progress_callback (ev : progress_event) : Q :=
  if Qle_bool ev.1 1 then ev.1 else 1%Q.

Definition fetch_and_save_data `{Sorting} (ETF_CODES : list string)
    (w : World) (secret env : option string) (net : Net) (m : Machine)
    : Screen * Machine :=
  let run := fetch_all_etf_data ETF_CODES w in
  let shown := 0%Q :: map progress_callback (progress run) in
  match snapshot run with
  | [] => (mkScreen shown Fetch_failed, m)
  | (first :: _) as new_data =>
      let files' := save_to_csv (Some new_data) LOCAL_CSV_PATH (files m) in
      let '(github_msg, gh) :=
        match get_github_token secret env with
        | Some token =>
            let '(ok, gh) :=
              append_data_to_github net token (Some new_data) (github m) in
            (if ok then "已同步至 GitHub"
             else "GitHub 同步失败，数据已保存在本地", gh)
        | None => ("未配置 GitHub Token，数据仅保存在本地", github m)
        end in
      (mkScreen (shown ++ [0.98%Q; 1.0%Q])
                (Updated (length new_data) (row_date first) github_msg),
       mkMachine files' gh)
  end.

(** [main], the date picker: the dates of the data in descending
    order, the first one selected. *)
Definition date_geb (a b : string) : bool := String.leb b a.

Definition selected_date `{Sorting} (all_data : list Row) : option string :=
  match all_data with
  | [] => None
  | _ :: _ =>
      head (sort_by date_geb (remove_dups (map row_date all_data)))
  end.

(* ------------------------------------------------------------------ *)
(** ** update_data.py *)
(* ------------------------------------------------------------------ *)

(** The names bound at module level: the imports of lines 11-20 and
    the two functions. *)
Definition update_data_globals : list string :=
  ["sys"; "os"; "traceback"; "datetime";
   "fetch_all_etf_data"; "save_to_csv"; "CSV_PATH";
   "append_data_to_github"; "get_github_token";
   "cli_progress"; "main"].

Inductive exception : Type :=
  | NameError (name : string).

(** Evaluation of a global name that is not a builtin. *)
Definition load_global (name : string) : exception + () :=
  if decide (name ∈ update_data_globals) then inr () else inl (NameError name).

Definition CSV_PATH : string := "ETF_Quant.csv".

(** [main]: the exit status of the process and the machine it leaves.
    The frame of a run has the column 均线穿越, so line 65 evaluates
    [pd.Series()]; an exception of lines 61-64, whose counts are only
    printed, reaches the same handler. *)
Definition update_data_main `{Sorting} (ETF_CODES : list string) (w : World)
    (secret env : option string) (net : Net) (m : Machine) : Z * Machine :=
  match get_github_token secret env with
  | None => (1, m)
  | Some token =>
      let df := snapshot (fetch_all_etf_data ETF_CODES w) in
      match df with
      | [] => (1, m)
      | _ :: _ =>
          match load_global "pd" with
          | inl _ => (1, m)
          | inr _ =>
              let files' := save_to_csv (Some df) CSV_PATH (files m) in
              let '(ok, gh) :=
                append_data_to_github net token (Some df) (github m) in
              (if ok then 0 else 1, mkMachine files' gh)
          end
      end
  end.

(* ================================================================== *)
(** * Vocabulary of the properties and sample inputs *)
(* ================================================================== *)

(** Names for the components of the two result tuples. *)
Definition relation_of (r : ma60_result) : string := r.1.2.
Definition cross_of (r : ma60_result) : string := r.2.
Definition turn_of (r : macd_result) : string := r.2.

(** The latest close and the latest 60-day simple moving average of a
    series: the mean of its last 60 closes. *)
Definition latest_close_of (df : list Bar) : float := iloc (map close df) (-1).
Definition latest_sma60_of (df : list Bar) : float :=
  window_mean (map close (drop (length df - 60) df)).

(** Sample series: one bar per close, on consecutive days from
    2024-01-01. *)
Definition bars_of_closes (cs : list float) : list Bar :=
  imap (λ i c, mkBar (19723 + Z.of_nat i) c c c c (of_int 100)) cs.
Definition rising (n : nat) : list float :=
  map (λ i : nat, of_int (Z.of_nat i + 1)) (seq 0 n).

(** Sixty bars with one unparsable close, and sixty bars at 1.000 but
    for one at 1.001. *)
Definition bars_with_gap : list Bar :=
  bars_of_closes (replicate 30 (of_int 1) ++ [NaN] ++ replicate 29 (of_int 1)).
Definition bars_just_below : list Bar :=
  bars_of_closes (replicate 30 (of_int 1) ++ [Num 1.001]
                  ++ replicate 29 (of_int 1)).

(** Weekly sample series: one bar per close, on consecutive Sundays. *)
Definition weeks_of_closes (cs : list float) : list Bar :=
  imap (λ i c, mkBar (19729 + 7 * Z.of_nat i) c c c c (of_int 100)) cs.

(** The rows of one date, and the rows of the dates a snapshot brings. *)
Definition on_date (d : string) (l : list Row) : list Row :=
  filter (λ r, row_date r = d) l.
Definition dates_of (l : list Row) : list string := map row_date l.
Definition kept (existing new_data : list Row) : list Row :=
  filter (λ r, row_date r ∉ dates_of new_data) existing.

(** The dataset invariant: at most one row per (instrument, date). *)
Definition one_row_per_key (l : list Row) : Prop := NoDup (map row_key l).

(** Same rows and same sequence of dates: equal but for the order of
    rows that share a date. *)
Definition same_dataset (l1 l2 : list Row) : Prop :=
  l1 ≡ₚ l2 ∧ dates_of l1 = dates_of l2.

Definition sorted_by_date (l : list Row) : Prop :=
  StronglySorted (λ a b, date_leb a b = true) l.

(** SHAs handed out so far are below the next fresh one. *)
Definition shas_fresh (w : GitHub) : Prop :=
  match remote w with
  | Some f => (rf_sha f < fresh_sha w)%nat
  | None => True
  end.

Definition sample_row (date code : string) : Row :=
  mkRow date code code NA NA None None NA "" None None None "".

(** The dataset holds Thursday's row; while this client merges Monday's
    snapshot, another writer commits the dataset extended by Friday's
    row, after this client's read and before its SHA fetch. *)
Definition thursday_row : Row := sample_row "2024-01-04" "510300".
Definition friday_row : Row := sample_row "2024-01-05" "510300".
Definition monday_row : Row := sample_row "2024-01-08" "510300".
Definition thursday_other : Row := sample_row "2024-01-04" "510500".
Definition friday_other : Row := sample_row "2024-01-05" "510500".
Definition before_race : GitHub :=
  mkGitHub (Some (mkRemoteFile [thursday_row] 0)) 1 [].
(** A dataset with two rows of Thursday. *)
Definition two_on_thursday : GitHub :=
  mkGitHub (Some (mkRemoteFile [thursday_row; thursday_other] 0)) 1 [].
Definition race : Net :=
  mkNet undisturbed undisturbed
        (mkExchange (Some [thursday_row; friday_row]) true) undisturbed.

(** The snapshot of the two-code scenario below: 159001 carries the
    date of its last bar, 510001, whose fetch failed, the date of the
    run. *)
Definition local_path : string := "ETF_Quant.csv".
Definition scenario_rows : list Row :=
  [mkRow "2024-03-05" "159001" "159001" "N/A" "N/A"
         (Some (Num 65)) (Some (Num (71 # 2))) REL_ABOVE ""
         None None None "";
   mkRow "2024-03-06" "510001" "510001" "N/A" "N/A"
         None None "N/A" "" None None None ""].

(** Steps still owed by the tasks of a pool, and the tasks it holds. *)
Definition weight (st : pool_state) : nat :=
  3 * length (queue st) + 2 * length (running st) + length (reporting st).
Definition tasks_of (st : pool_state) : list string :=
  queue st ++ running st ++ (reporting st).*1 ++ finished st.

Definition fraction_of (ev : progress_event) : Q := ev.1.

(** The counter never passes the number of tasks; what is delivered or
    about to be lies within the bounds; and as long as no two reports
    were ever pending together, reports are delivered in the order of
    the counter values they were computed from. *)
Definition pool_ok (total : nat) (g : nat → Q) (lo hi : Q)
    (st : pool_state) : Prop :=
  (counter st + length (queue st) + length (running st) = total)%nat
  ∧ Forall (λ ev, (lo <= fraction_of ev <= hi)%Q) (delivered st)
  ∧ Forall (λ p, (lo <= fraction_of p.2 <= hi)%Q) (reporting st)
  ∧ (length (reporting st) ≤ peak st)%nat
  ∧ ((peak st ≤ 1)%nat →
     StronglySorted Qle (fraction_of <$> delivered st)
     ∧ Forall (λ ev, (fraction_of ev <= g (counter st))%Q) (delivered st)
     ∧ Forall (λ p, (fraction_of p.2 <= g (counter st))%Q
                    ∧ Forall (λ ev, (fraction_of ev <= fraction_of p.2)%Q)
                             (delivered st))
              (reporting st)).

(** The cap of [_progress]. *)
Definition capped (pct : Q) : Q := if Qle_bool pct 0.99 then pct else 0.99%Q.

(** The fractions the two kinds of task report, as functions of the
    counter value. *)
Definition daily_fraction (total c : nat) : Q :=
  capped (0.05 + 0.50 * (nat_to_Q c / nat_to_Q total)).
Definition fee_fraction (missing c : nat) : Q :=
  capped (0.62 + 0.30 * (nat_to_Q c / nat_to_Q missing)).

(** The scheduler that lets the tasks of a pool run one at a time: with
    a task in flight the second enabled action is that task's next
    step. *)
Definition one_at_a_time (n : nat) : list nat := replicate (3 * n) 1%nat.

(** The scenario of two codes: 159001 has 65 rising closes, the fetch
    of 510001 fails. *)
Definition rising_raw (n : nat) : list RawBar :=
  imap (λ i c, mkRawBar (Some (19723 + Z.of_nat i)) c c c (Some c) (of_int 100))
       (rising n).
Definition one_good_source (symbol : string) : quote_reply :=
  if decide (symbol = "sz159001") then Returns (Some (rising_raw 65))
  else Raises.
Definition two_codes : list string := ["159001"; "510001"].
Definition scenario : World :=
  mkWorld None one_good_source ∅ (λ _, None) "2024-03-06" [] [].

(** A universe of 51 codes, none of which can be fetched.  Forty-nine
    tasks run one after the other; the last two run together: the 50th
    is counted, then the 51st, and the 51st reports first. *)
Definition universe_51 : list string :=
  (λ i : nat, pretty (510001 + Z.of_nat i)) <$> seq 0 51.
Definition late_report : list nat :=
  concat (replicate 49 [0; 1]%nat) ++ [0; 0; 0; 0; 1; 0]%nat.
Definition racing : World :=
  mkWorld None (λ _, Raises) ∅ (λ _, None) "2024-01-08" late_report [].

Definition ascending (df : list Bar) : Prop :=
  StronglySorted (λ a b, date a ≤ date b) df.
Definition strictly_ascending (df : list Bar) : Prop :=
  StronglySorted (λ a b, date a < date b) df.

(** A quote source whose rows come out of order and with one date
    twice. *)
Definition plain_bar (d : Z) (c : Z) : Bar :=
  mkBar d (of_int c) (of_int c) (of_int c) (of_int c) (of_int 100).
Definition plain_raw (d : Z) (c : Z) : RawBar :=
  mkRawBar (Some d) (of_int c) (of_int c) (of_int c) (Some (of_int c))
           (of_int 100).
Definition repeated_date_raw : list RawBar :=
  [plain_raw 19725 10; plain_raw 19724 9; plain_raw 19725 11].
Definition repeated_date_source (symbol : string) : quote_reply :=
  Returns (Some repeated_date_raw).

(** The fee entry a run ends up with for a code of the universe: the
    cached one, or else the scraped one. *)
Definition fee_entry (w : World) (code : string) : gmap string string :=
  match fees_cache_file w !! code with
  | Some entry => entry
  | None =>
      let '(mgmt, custody) := get_fund_fees_scrape (eastmoney w) code in
      {[ "mgmt" := mgmt; "custody" := custody ]}
  end.

(** The row kept for a code whose K-line fetch gave nothing. *)
Definition placeholder_row (w : World) (code : string) : Row :=
  mkRow (today w) code
        (default code (get_etf_name_map (fund_name_em w) !! code))
        (default NA (fee_entry w code !! "mgmt"))
        (default NA (fee_entry w code !! "custody"))
        None None NA "" None None None "".

(** A bar as the resampler makes them. *)
Definition weekly_wf (b : Bar) : Prop :=
  date b = 7 * week_of (date b) + 3
  ∧ isnan (open b) = false ∧ isnan (high b) = false
  ∧ isnan (low b) = false ∧ isnan (close b) = false
  ∧ ∃ q, volume b = Num q ∧ Qred q = q.

(** Both reads of the file fail in transport. *)
Definition reads_fail : Net :=
  mkNet (mkExchange None false) (mkExchange None false) undisturbed undisturbed.

(** The SHA lookup fails in transport. *)
Definition sha_lookup_fails : Net :=
  mkNet undisturbed undisturbed (mkExchange None false) undisturbed.

(** The reports a pool owes to its counter: delivered or pending. *)
Definition reports_of (st : pool_state) : list progress_event :=
  delivered st ++ (reporting st).*2.

(** The scenario run again, on the fee cache the first run leaves. *)
Definition scenario_again : World :=
  mkWorld None one_good_source (fees_cache two_codes scenario)
          (λ _, Some (Some "0.50%", Some "0.10%")) "2024-03-07" [] [].

(** A machine with Thursday's row in the repository and nothing on
    disk. *)
Definition fresh_machine : Machine := mkMachine ∅ before_race.

(** The calls of the callback before the last one. *)
Definition before_completion (ETF_CODES : list string) (w : World)
    : list progress_event :=
  [_progress 0.01 "正在获取ETF名称数据..."]
  ++ [_progress 0.05 ("正在获取日K线数据 (共" +:+ pretty (length ETF_CODES)
                      +:+ "只)...")]
  ++ delivered (daily_pool ETF_CODES w)
  ++ [_progress 0.58 "正在计算周K线数据..."]
  ++ [_progress 0.62 "正在获取费率数据..."]
  ++ delivered (fee_pool ETF_CODES w)
  ++ [_progress 0.94 "正在计算技术指标并构建结果..."].

(* ================================================================== *)
(** * Properties *)
(* ================================================================== *)


(* ------------------------------------------------------------------ *)
(** ** The orders used for sorting *)
(* ------------------------------------------------------------------ *)

Section orders.

Lemma ascii_compare_lt_trans (a b c : ascii) :
  Ascii.compare a b = Lt → Ascii.compare b c = Lt → Ascii.compare a c = Lt.
Proof.
  unfold Ascii.compare. rewrite !N.compare_lt_iff. apply N.lt_trans.
Qed.

Lemma string_compare_lt_trans (s1 s2 s3 : string) :
  String.compare s1 s2 = Lt → String.compare s2 s3 = Lt →
  String.compare s1 s3 = Lt.
Proof.
  revert s2 s3. induction s1 as [|c1 s1 IH]; intros [|c2 s2] [|c3 s3];
    simpl; try congruence.
  destruct (Ascii.compare c1 c2) eqn:E12; try congruence;
    destruct (Ascii.compare c2 c3) eqn:E23; try congruence.
  - apply Ascii.compare_eq_iff in E12, E23. subst.
    assert (Ascii.compare c3 c3 = Eq) as ->.
    { unfold Ascii.compare. apply N.compare_refl. }
    apply IH.
  - apply Ascii.compare_eq_iff in E12. subst. rewrite E23. done.
  - apply Ascii.compare_eq_iff in E23. subst. rewrite E12. done.
  - rewrite (ascii_compare_lt_trans _ _ _ E12 E23). done.
Qed.

Lemma string_compare_refl (s : string) : String.compare s s = Eq.
Proof.
  induction s as [|c s IH]; simpl; [done|].
  assert (Ascii.compare c c = Eq) as ->; [|done].
  unfold Ascii.compare. apply N.compare_refl.
Qed.

Lemma string_leb_trans (s1 s2 s3 : string) :
  String.leb s1 s2 = true → String.leb s2 s3 = true →
  String.leb s1 s3 = true.
Proof.
  unfold String.leb.
  destruct (String.compare s1 s2) eqn:E12; try done;
    destruct (String.compare s2 s3) eqn:E23; try done; intros _ _.
  - apply String.compare_eq_iff in E12, E23. subst.
    by rewrite string_compare_refl.
  - apply String.compare_eq_iff in E12. subst. by rewrite E23.
  - apply String.compare_eq_iff in E23. subst. by rewrite E12.
  - by rewrite (string_compare_lt_trans _ _ _ E12 E23).
Qed.

Lemma string_leb_refl (s : string) : String.leb s s = true.
Proof. unfold String.leb. by rewrite string_compare_refl. Qed.

Lemma date_leb_total (a b : Row) : date_leb a b = true ∨ date_leb b a = true.
Proof. apply String.leb_total. Qed.

Lemma date_leb_trans (a b c : Row) :
  date_leb a b = true → date_leb b c = true → date_leb a c = true.
Proof. apply string_leb_trans. Qed.

Lemma bar_leb_total (a b : Bar) : bar_leb a b = true ∨ bar_leb b a = true.
Proof. unfold bar_leb. rewrite !Z.leb_le. lia. Qed.

Lemma bar_leb_trans (a b c : Bar) :
  bar_leb a b = true → bar_leb b c = true → bar_leb a c = true.
Proof. unfold bar_leb. rewrite !Z.leb_le. lia. Qed.

End orders.

(* ------------------------------------------------------------------ *)
(** ** Insertion sort meets the contract and is stable *)
(* ------------------------------------------------------------------ *)

Section insertion.
Context {A : Type} (leb : A → A → bool).

Lemma insert_sorted_perm (x : A) (l : list A) :
  insert_sorted leb x l ≡ₚ x :: l.
Proof.
  induction l as [|y l IH]; simpl; [done|].
  destruct (leb x y); [done|]. rewrite IH. apply Permutation_swap.
Qed.

Lemma insertion_sort_perm (l : list A) : insertion_sort leb l ≡ₚ l.
Proof.
  induction l as [|x l IH]; simpl; [done|].
  rewrite insert_sorted_perm. by rewrite IH.
Qed.

Hypothesis leb_total : ∀ x y, leb x y = true ∨ leb y x = true.
Hypothesis leb_trans : ∀ x y z, leb x y = true → leb y z = true → leb x z = true.

Lemma insert_sorted_sorted (x : A) (l : list A) :
  StronglySorted (λ a b, leb a b = true) l →
  StronglySorted (λ a b, leb a b = true) (insert_sorted leb x l).
Proof.
  induction 1 as [|y l Hs IH Hy]; simpl.
  - repeat constructor.
  - destruct (leb x y) eqn:E.
    + constructor; [by constructor|]. constructor; [done|].
      eapply Forall_impl; [exact Hy|]. intros z Hz. by eapply leb_trans.
    + constructor; [done|]. rewrite insert_sorted_perm.
      constructor; [|done]. destruct (leb_total x y); congruence.
Qed.

Lemma insertion_sort_sorted (l : list A) :
  StronglySorted (λ a b, leb a b = true) (insertion_sort leb l).
Proof.
  induction l as [|x l IH]; simpl; [constructor|].
  by apply insert_sorted_sorted.
Qed.

Lemma insert_sorted_stable (k x : A) (l : list A) :
  filter (λ y, leb k y = true ∧ leb y k = true) (insert_sorted leb x l)
  = filter (λ y, leb k y = true ∧ leb y k = true) (x :: l).
Proof.
  induction l as [|y l IH]; [done|].
  cbn [insert_sorted]. destruct (leb x y) eqn:E; [done|].
  rewrite (filter_cons _ y), IH, !filter_cons.
  repeat case_decide; try done.
  destruct_and!. rewrite (leb_trans x k y) in E; done.
Qed.

Lemma insertion_sort_stable (k : A) (l : list A) :
  filter (λ y, leb k y = true ∧ leb y k = true) (insertion_sort leb l)
  = filter (λ y, leb k y = true ∧ leb y k = true) l.
Proof.
  induction l as [|x l IH]; [done|].
  cbn [insertion_sort foldr]. rewrite insert_sorted_stable.
  fold (insertion_sort leb l). by rewrite !filter_cons, IH.
Qed.

End insertion.

#[export] Instance insertion : Sorting := {|
  sort_by := @insertion_sort;
  sort_by_perm := @insertion_sort_perm;
  sort_by_sorted := λ A leb l Htotal Htrans,
    insertion_sort_sorted leb Htotal Htrans l
|}.

Lemma insertion_is_stable : stable insertion.
Proof. intros A leb l x Htot Htrans. by apply insertion_sort_stable. Qed.

Lemma reversing_sort_perm (A : Type) (leb : A → A → bool) (l : list A) :
  reversing_sort leb l ≡ₚ l.
Proof.
  unfold reversing_sort. rewrite insertion_sort_perm.
  symmetry. apply Permutation_rev.
Qed.

(** The reversing sort meets the contract as well; it is tried after
    [insertion] wherever a sort is looked for. *)
#[local] Instance reversing : Sorting | 100 := {|
  sort_by := @reversing_sort;
  sort_by_perm := reversing_sort_perm;
  sort_by_sorted := λ A leb l Htotal Htrans,
    insertion_sort_sorted leb Htotal Htrans (rev l)
|}.

Lemma reversing_not_stable : ¬ stable reversing.
Proof.
  intros Hs.
  specialize (Hs bool (λ _ _, true) [true; false] true
                 (λ _ _, or_introl eq_refl) (λ _ _ _ _ _, eq_refl)).
  by vm_compute in Hs.
Qed.

(* ------------------------------------------------------------------ *)
(** ** Indicators *)
(* ------------------------------------------------------------------ *)

Section series_facts.

Lemma iloc_last_seq (f : nat → float) (n : nat) :
  iloc (map f (seq 0 (S n))) (-1) = f n.
Proof.
  unfold iloc. rewrite length_map, length_seq.
  replace (-1 <? 0) with true by done.
  destruct ((0 <=? Z.of_nat (S n) + -1)
            && (Z.of_nat (S n) + -1 <? Z.of_nat (S n))) eqn:E.
  2: { apply andb_false_iff in E as [E|E];
         [apply Z.leb_gt in E | apply Z.ltb_ge in E]; lia. }
  replace (Z.to_nat (Z.of_nat (S n) + -1)) with n by lia.
  rewrite (nth_indep _ NaN (f 0%nat)) by (rewrite length_map, length_seq; lia).
  rewrite map_nth, seq_nth by lia. done.
Qed.

Lemma iloc_last_rolling_mean (window : nat) (s : list float) :
  (0 < window ≤ length s)%nat →
  iloc (rolling_mean window s) (-1)
  = window_mean (drop (length s - window) s).
Proof.
  intros Hlen. unfold rolling_mean.
  destruct (length s) as [|n] eqn:En; [lia|].
  rewrite iloc_last_seq.
  destruct (S n <? window)%nat eqn:E; [apply Nat.ltb_lt in E; lia|].
  f_equal. apply take_ge. rewrite length_drop. lia.
Qed.

Lemma fsum_observed (s : list float) :
  Forall (λ x, isnan x = false) s → ∃ q, fsum s = Num q.
Proof.
  induction 1 as [|x s Hx _ [q IH]]; [by eexists|].
  unfold fsum in *. simpl. rewrite IH. destruct x; [done|]. by eexists.
Qed.

Lemma fsum_missing (s : list float) :
  Exists (λ x, isnan x = true) s → fsum s = NaN.
Proof.
  induction 1 as [x s Hx|x s _ IH]; unfold fsum in *; simpl.
  - by destruct x.
  - rewrite IH. by destruct x.
Qed.

Lemma window_mean_observed (s : list float) :
  Forall (λ x, isnan x = false) s → ∃ q, window_mean s = Num q.
Proof.
  intros [q Hq]%fsum_observed. unfold window_mean. rewrite Hq.
  by eexists.
Qed.

Lemma round_num (q : Q) (n : nat) : ∃ r, round (Num q) n = Num r.
Proof. by eexists. Qed.

End series_facts.

(** C7. A daily series with fewer than 61 bars never gets a crossover
    signal: [calculate_ma60_relation] returns the empty signal for it;
    and the result is a function of the series alone. *)
Theorem cross_signal_none_below_61 (df : list Bar) :
  (length df < 61)%nat →
  cross_of (calculate_ma60_relation (Some df)) = ""
  ∧ ∀ df' : list Bar, df' = df →
      calculate_ma60_relation (Some df') = calculate_ma60_relation (Some df).
Proof.
  intros Hlen. split; [|by intros ? ->].
  unfold calculate_ma60_relation.
  destruct (length df <? 61)%nat eqn:E; [|apply Nat.ltb_ge in E; lia].
  destruct (60 <=? length df)%nat; [|done].
  cbv zeta. by destruct (isnan _).
Qed.

Lemma cross_signal_none_below_61_witness :
  (length (bars_of_closes (rising 60)) < 61)%nat
  ∧ cross_of (calculate_ma60_relation (Some (bars_of_closes (rising 60)))) = "".
Proof.
  split; [vm_compute; lia|].
  apply (cross_signal_none_below_61 (bars_of_closes (rising 60))).
  vm_compute; lia.
Defined.

(** Without a frame at all the result is the same placeholder. *)
Lemma ma60_relation_of_none :
  calculate_ma60_relation None = (None, None, NA, "").
Proof. done. Qed.



(** A missing close among the last 60 makes the relation unavailable,
    however long the series. *)
Lemma ma60_relation_missing_close (df : list Bar) :
  (60 ≤ length df)%nat →
  Exists (λ b, isnan (close b) = true) (drop (length df - 60) df) →
  relation_of (calculate_ma60_relation (Some df)) = NA.
Proof.
  intros Hlen Hnan.
  assert (iloc (rolling_mean 60 (map close df)) (-1) = NaN) as Hma.
  { rewrite iloc_last_rolling_mean by (rewrite length_map; lia).
    unfold window_mean. rewrite fsum_missing; [done|].
    rewrite length_map, skipn_map. by apply Exists_fmap. }
  unfold relation_of, calculate_ma60_relation.
  destruct (length df <? 61)%nat;
    [destruct (60 <=? length df)%nat eqn:E; [|apply Nat.leb_gt in E; lia]|];
    cbv zeta; by rewrite Hma.
Qed.


(** With enough history the three MACD values are always computed. *)
Lemma weekly_macd_computed (df : list Bar) :
  (35 ≤ length df)%nat →
  ∃ dif dea hist turn,
    calculate_weekly_macd (Some df) = (Some dif, Some dea, Some hist, turn).
Proof.
  intros Hlen. unfold calculate_weekly_macd, calculate_weekly_macd_with.
  destruct (length df <? 26 + 9)%nat eqn:E; [apply Nat.ltb_lt in E; lia|].
  cbv zeta. by repeat eexists.
Qed.

(** C8, as the code has it.  For a weekly series with fewer than 35 bars
    DIF, DEA and the histogram are [None], never a placeholder zero,
    and a computed result never has [None] there; the turn signal is the
    empty string. *)
Theorem weekly_macd_unavailable_below_35 (df : list Bar) :
  (length df < 35)%nat →
  calculate_weekly_macd (Some df) = (None, None, None, "")
  ∧ ∀ df' : list Bar, (35 ≤ length df')%nat →
      ∃ dif dea hist turn,
        calculate_weekly_macd (Some df')
        = (Some dif, Some dea, Some hist, turn).
Proof.
  intros Hlen. split; [|apply weekly_macd_computed].
  unfold calculate_weekly_macd, calculate_weekly_macd_with.
  destruct (length df <? 26 + 9)%nat eqn:E; [done|].
  apply Nat.ltb_ge in E. lia.
Qed.

Lemma weekly_macd_unavailable_below_35_witness :
  calculate_weekly_macd (Some (weeks_of_closes (rising 34)))
  = (None, None, None, "").
Proof.
  apply (weekly_macd_unavailable_below_35 (weeks_of_closes (rising 34))).
  vm_compute; lia.
Defined.

Lemma weekly_macd_of_none :
  calculate_weekly_macd None = (None, None, None, "").
Proof. done. Qed.

(** C8 as stated fails for the turn signal: the signal returned for 34
    weekly bars (no history) is the very value computed for 35 steadily
    rising weeks (history, no turn). *)
Lemma weekly_macd_turn_counterexample :
  (length (weeks_of_closes (rising 34)) < 35)%nat
  ∧ (35 ≤ length (weeks_of_closes (rising 35)))%nat
  ∧ calculate_weekly_macd (Some (weeks_of_closes (rising 35)))
    = (Some (Num 6.1057), Some (Num 5.7217), Some (Num 0.7681), "")
  ∧ turn_of (calculate_weekly_macd (Some (weeks_of_closes (rising 34))))
    = turn_of (calculate_weekly_macd (Some (weeks_of_closes (rising 35)))).
Proof. vm_compute. repeat split; lia. Qed.

(* ------------------------------------------------------------------ *)
(** ** The merge of a snapshot into a dataset *)
(* ------------------------------------------------------------------ *)

#[local] Instance string_leb_antisymm :
  AntiSymm eq (λ a b : string, String.leb a b = true).
Proof. intros a b. apply String.leb_antisym. Qed.

Lemma filter_none {A : Type} (P : A → Prop) `{∀ x, Decision (P x)}
    (l : list A) :
  (∀ x, x ∈ l → ¬ P x) → filter P l = [].
Proof.
  induction l as [|a l IH]; intros Hl; [done|].
  rewrite filter_cons_False by (apply Hl; left).
  apply IH. intros x Hx. apply Hl. by right.
Qed.

Section merge.
Context `{Sorting}.

Lemma date_leb_equiv (a b : Row) :
  date_leb a b = true ∧ date_leb b a = true ↔ row_date b = row_date a.
Proof.
  unfold date_leb. split.
  - intros [H1 H2]. symmetry. by apply String.leb_antisym.
  - intros ->. split; apply string_leb_refl.
Qed.

Lemma merge_frames_unfold (existing new_data : list Row) :
  merge_frames existing new_data
  = sort_by date_leb (kept existing new_data ++ new_data).
Proof.
  unfold merge_frames, kept, dates_of. destruct existing as [|r l]; [done|].
  f_equal. f_equal. apply list_filter_iff. intros x.
  by rewrite elem_of_remove_dups.
Qed.

Lemma merge_frames_perm (existing new_data : list Row) :
  merge_frames existing new_data ≡ₚ kept existing new_data ++ new_data.
Proof. rewrite merge_frames_unfold. apply sort_by_perm. Qed.

Lemma merge_frames_sorted (existing new_data : list Row) :
  sorted_by_date (merge_frames existing new_data).
Proof.
  rewrite merge_frames_unfold.
  apply sort_by_sorted; [apply date_leb_total | apply date_leb_trans].
Qed.

Lemma kept_of_new (new_data : list Row) : kept new_data new_data = [].
Proof.
  apply filter_none. intros r Hr Hnot. apply Hnot.
  by apply list_elem_of_fmap_2.
Qed.

Lemma kept_idemp (existing new_data : list Row) :
  kept (kept existing new_data) new_data = kept existing new_data.
Proof.
  unfold kept. rewrite list_filter_filter. apply list_filter_iff.
  intros r. tauto.
Qed.

Lemma kept_merge_frames (existing new_data : list Row) :
  kept (merge_frames existing new_data) new_data ≡ₚ kept existing new_data.
Proof.
  unfold kept at 1. rewrite merge_frames_perm, filter_app.
  fold (kept (kept existing new_data) new_data) (kept new_data new_data).
  by rewrite kept_idemp, kept_of_new, app_nil_r.
Qed.

(** The rows of a snapshot date after the merge are the snapshot's. *)
Lemma merge_frames_replaces (existing new_data : list Row) (d : string) :
  d ∈ dates_of new_data →
  on_date d (merge_frames existing new_data) ≡ₚ on_date d new_data.
Proof.
  intros Hd. unfold on_date. rewrite merge_frames_perm, filter_app.
  rewrite (filter_none _ (kept _ _)), app_nil_l; [done|].
  intros r [Hr _]%list_elem_of_filter E. by rewrite E in Hr.
Qed.

(** The rows of every other date are the old ones. *)
Lemma merge_frames_preserves (existing new_data : list Row) (d : string) :
  d ∉ dates_of new_data →
  on_date d (merge_frames existing new_data) ≡ₚ on_date d existing.
Proof.
  intros Hd. unfold on_date. rewrite merge_frames_perm, filter_app.
  rewrite (filter_none _ new_data), app_nil_r.
  - unfold kept. rewrite list_filter_filter.
    erewrite list_filter_iff; [done|]. intros r. cbn. split; [tauto|].
    intros E. split; [done|]. by rewrite E.
  - intros r Hr E. apply Hd. rewrite <- E. by apply list_elem_of_fmap_2.
Qed.

(** X10. The merge keeps the dataset invariant: when the stored rows
    and the snapshot each have at most one row per (code, date), so has
    the merged frame. *)
Lemma merge_frames_keys_unique (existing new_data : list Row) :
  one_row_per_key existing → one_row_per_key new_data →
  one_row_per_key (merge_frames existing new_data).
Proof.
  unfold one_row_per_key. intros He Hn.
  rewrite merge_frames_perm, fmap_app. apply NoDup_app. split_and!.
  - induction existing as [|r l IH]; [constructor|].
    unfold kept in *. rewrite filter_cons. apply NoDup_cons in He as [Hr Hl].
    case_decide; [|by apply IH]. cbn. apply NoDup_cons. split; [|by apply IH].
    intros (r' & Hk & Hr')%list_elem_of_fmap.
    apply list_elem_of_filter in Hr' as [_ Hr']. apply Hr.
    rewrite Hk. by apply list_elem_of_fmap_2.
  - intros k (r & -> & Hr)%list_elem_of_fmap (r' & Hk & Hr')%list_elem_of_fmap.
    apply list_elem_of_filter in Hr as [Hr _]. apply Hr.
    injection Hk as _ ->. by apply list_elem_of_fmap_2.
  - done.
Qed.

(** Merging the same snapshot again changes nothing but, possibly, the
    order of rows within a date. *)
Lemma merge_frames_idemp (existing new_data : list Row) :
  same_dataset (merge_frames (merge_frames existing new_data) new_data)
               (merge_frames existing new_data).
Proof.
  assert (merge_frames (merge_frames existing new_data) new_data
          ≡ₚ merge_frames existing new_data) as Hperm.
  { rewrite (merge_frames_perm (merge_frames _ _)), kept_merge_frames.
    by rewrite merge_frames_perm. }
  split; [done|].
  apply (StronglySorted_unique (λ a b : string, String.leb a b = true)).
  - eapply StronglySorted_fmap, merge_frames_sorted. done.
  - eapply StronglySorted_fmap, merge_frames_sorted. done.
  - unfold dates_of. by rewrite Hperm.
Qed.

(** A date-sorted frame is determined by its rows date by date. *)
Lemma sorted_by_date_unique (l1 l2 : list Row) :
  sorted_by_date l1 → sorted_by_date l2 →
  (∀ d, on_date d l1 = on_date d l2) → l1 = l2.
Proof.
  unfold on_date.
  induction l1 as [|a l1 IH] in l2 |- *; intros S1 S2 Hg.
  { destruct l2 as [|b l2]; [done|]. specialize (Hg (row_date b)).
    by rewrite filter_nil, filter_cons_True in Hg. }
  destruct l2 as [|b l2].
  { specialize (Hg (row_date a)).
    by rewrite filter_nil, filter_cons_True in Hg. }
  apply StronglySorted_inv in S1 as [S1 Ha], S2 as [S2 Hb].
  assert (row_date a = row_date b) as Hab.
  { destruct (decide (row_date a = row_date b)) as [|Hne]; [done|].
    exfalso. destruct (date_leb_total a b) as [Hle|Hle].
    - specialize (Hg (row_date a)).
      rewrite (filter_cons_True _ a) in Hg by done.
      rewrite (filter_cons_False _ b) in Hg by (intros E; by apply Hne).
      assert (a ∈ filter (λ r, row_date r = row_date a) l2) as Hin.
      { rewrite <- Hg. left. }
      apply list_elem_of_filter in Hin as [_ Hin].
      rewrite Forall_forall in Hb. apply Hne. symmetry.
      apply date_leb_equiv. split; [done|]. by apply Hb.
    - specialize (Hg (row_date b)).
      rewrite (filter_cons_True _ b) in Hg by done.
      rewrite (filter_cons_False _ a) in Hg by done.
      assert (b ∈ filter (λ r, row_date r = row_date b) l1) as Hin.
      { rewrite Hg. left. }
      apply list_elem_of_filter in Hin as [_ Hin].
      rewrite Forall_forall in Ha. apply Hne. symmetry.
      apply date_leb_equiv. split; [|done]. by apply Ha. }
  pose proof (Hg (row_date a)) as Hhead.
  rewrite (filter_cons_True _ a), (filter_cons_True _ b) in Hhead by done.
  injection Hhead as -> _. f_equal. apply IH; [done..|].
  intros d. specialize (Hg d). rewrite !filter_cons in Hg.
  case_decide; [by injection Hg|done].
Qed.

(** With a stable sort the second merge gives the very same frame. *)
Lemma merge_frames_idemp_stable (existing new_data : list Row) :
  stable _ →
  merge_frames (merge_frames existing new_data) new_data
  = merge_frames existing new_data.
Proof.
  intros Hstable.
  assert (∀ l d, on_date d (sort_by date_leb l) = on_date d l) as Hgroup.
  { intros l d. unfold on_date.
    pose (x := mkRow d "" "" "" "" None None "" "" None None None "").
    pose proof (Hstable Row date_leb l x date_leb_total date_leb_trans) as Hs.
    erewrite (list_filter_iff _ (λ y, date_leb x y = true ∧ date_leb y x = true)).
    - rewrite Hs. apply list_filter_iff. intros y.
      by rewrite date_leb_equiv.
    - intros y. by rewrite date_leb_equiv. }
  apply sorted_by_date_unique; [apply merge_frames_sorted..|].
  intros d. set (M := merge_frames existing new_data).
  assert (on_date d M
          = on_date d (kept existing new_data) ++ on_date d new_data) as HM.
  { unfold M. rewrite merge_frames_unfold, Hgroup. apply filter_app. }
  rewrite merge_frames_unfold, Hgroup.
  unfold on_date at 1. rewrite filter_app. fold (on_date d (kept M new_data)).
  fold (on_date d new_data). rewrite HM. f_equal.
  destruct (decide (d ∈ dates_of new_data)) as [Hd|Hd].
  - unfold on_date, kept. rewrite !(filter_none _ (filter _ _)); [done|..];
      intros r [Hr _]%list_elem_of_filter E; by rewrite E in Hr.
  - unfold on_date at 1, kept at 1. rewrite list_filter_filter.
    erewrite (list_filter_iff _ (λ r, row_date r = d)).
    2: { intros r. cbn. split; [tauto|]. intros E. split; [done|].
         by rewrite E. }
    fold (on_date d M). rewrite HM.
    unfold on_date at 2. rewrite (filter_none _ new_data), app_nil_r; [done|].
    intros r Hr E. apply Hd. rewrite <- E. by apply list_elem_of_fmap_2.
Qed.

End merge.

(* ------------------------------------------------------------------ *)
(** ** The remote store *)
(* ------------------------------------------------------------------ *)

Section store.
Context `{Sorting}.

Lemma merge_frames_nonempty (existing new_data : list Row) :
  new_data ≠ [] → merge_frames existing new_data ≠ [].
Proof.
  intros Hne Hnil. pose proof (merge_frames_perm existing new_data) as Hp.
  rewrite Hnil in Hp. apply Permutation_nil_l in Hp. symmetry in Hp.
  by apply app_eq_nil in Hp as [_ ?].
Qed.

Lemma read_csv_shas_fresh (net : Net) (token : string) (w : GitHub) :
  shas_fresh w → shas_fresh (read_csv_from_github net token w).2.
Proof.
  unfold shas_fresh, read_csv_from_github, http_get, bind, ret, send,
    others_write, commit.
  destruct net as [[i1 [|]] [i2 [|]] ? ?], w as [[f|] n log];
    destruct i1, i2; simpl; lia.
Qed.

(** Quiet network: the read returns the dataset and leaves it alone. *)
Lemma read_csv_quiet (token : string) (w : GitHub) :
  (read_csv_from_github quiet token w).1 = dataset w
  ∧ dataset (read_csv_from_github quiet token w).2 = dataset w.
Proof. by destruct w as [[f|] n log]. Qed.

(** A commit of another writer between the SHA fetch and the PUT makes
    the PUT fail and stays in place. *)
Lemma write_csv_refused (net : Net) (token message : string)
    (rows theirs : list Row) (w : GitHub) :
  rows ≠ [] → shas_fresh w →
  intervening (on_put net) = Some theirs →
  ∃ w', write_csv_to_github net token (Some rows) message w = (false, w')
        ∧ dataset w' = theirs.
Proof.
  unfold shas_fresh. intros Hrows Hw Hput.
  unfold write_csv_to_github, _get_file_sha, http_get, http_put, bind, ret,
    send, others_write, commit, dataset.
  destruct rows as [|r rows]; [done|].
  destruct net as [? ? [i3 s3] [i4 s4]], w as [[f|] n log];
    simpl in *; subst i4; destruct i3, s3, s4; simpl;
    repeat case_decide; try (eexists; split; done); simpl in *; lia.
Qed.

(** Without such a commit, and with both requests served, the PUT is
    accepted whatever happened before the SHA fetch. *)
Lemma write_csv_accepted (net : Net) (token message : string)
    (rows : list Row) (w : GitHub) :
  rows ≠ [] →
  intervening (on_put net) = None →
  served (on_sha net) = true → served (on_put net) = true →
  ∃ w', write_csv_to_github net token (Some rows) message w = (true, w')
        ∧ dataset w' = rows.
Proof.
  intros Hrows Hput Hs3 Hs4.
  unfold write_csv_to_github, _get_file_sha, http_get, http_put, bind, ret,
    send, others_write, commit, dataset.
  destruct rows as [|r rows]; [done|].
  destruct net as [? ? [i3 s3] [i4 s4]], w as [[f|] n log];
    simpl in *; subst; destruct i3; simpl;
    repeat case_decide; first [congruence | eexists; split; reflexivity].
Qed.

Lemma append_unfold (net : Net) (token : string) (r : Row)
    (rows : list Row) (w : GitHub) :
  ∃ message,
    append_data_to_github net token (Some (r :: rows)) w
    = write_csv_to_github net token
        (Some (merge_frames (read_csv_from_github net token w).1 (r :: rows)))
        message (read_csv_from_github net token w).2.
Proof.
  eexists. unfold append_data_to_github, bind.
  by destruct (read_csv_from_github net token w).
Qed.

Lemma append_quiet (token : string) (rows : list Row) (w : GitHub) :
  rows ≠ [] →
  ∃ w', append_data_to_github quiet token (Some rows) w = (true, w')
        ∧ dataset w' = merge_frames (dataset w) rows.
Proof.
  intros Hrows. destruct rows as [|r rows]; [done|].
  destruct (append_unfold quiet token r rows w) as [message ->].
  destruct (read_csv_quiet token w) as [-> _].
  by apply write_csv_accepted; [apply merge_frames_nonempty|..].
Qed.


(** C10. With no snapshot or an empty one, [append_data_to_github] and
    [write_csv_to_github] return [False] whatever the token and the
    network, and the repository is untouched: the file, its SHA, and
    the list of requests sent (no read, no write) are as before. *)
Theorem empty_snapshot_not_written (net : Net) (token message : string)
    (w : GitHub) :
  append_data_to_github net token None w = (false, w)
  ∧ append_data_to_github net token (Some []) w = (false, w)
  ∧ write_csv_to_github net token None message w = (false, w)
  ∧ write_csv_to_github net token (Some []) message w = (false, w).
Proof. done. Qed.

(** C2, as the code has it.  The write-back is conditioned on the SHA
    that [write_csv_to_github] fetches just before it, not on what the
    initial read saw.  A commit of another writer that lands between
    that SHA fetch and the PUT makes the merge return [False] and is
    left in place.  Without such a commit, and with the SHA fetch and
    the PUT served, the merge returns [True] and the dataset becomes
    the rows of the initial read merged with the snapshot, whatever
    was committed between the read and the SHA fetch. *)
Theorem write_conditioned_on_sha_before_put (net : Net) (token : string)
    (rows : list Row) (w : GitHub) :
  rows ≠ [] → shas_fresh w →
  let existing := (read_csv_from_github net token w).1 in
  let result := append_data_to_github net token (Some rows) w in
  (∀ theirs, intervening (on_put net) = Some theirs →
     result.1 = false ∧ dataset result.2 = theirs)
  ∧ (intervening (on_put net) = None →
     served (on_sha net) = true → served (on_put net) = true →
     result.1 = true ∧ dataset result.2 = merge_frames existing rows).
Proof.
  intros Hrows Hw. destruct rows as [|r rows]; [done|]. cbv zeta.
  destruct (append_unfold net token r rows w) as [message ->].
  split.
  - intros theirs Hput.
    edestruct write_csv_refused as (w' & -> & Hw'); [| |exact Hput|done].
    + by apply merge_frames_nonempty.
    + by apply read_csv_shas_fresh.
  - intros Hput Hsha Hserved.
    edestruct write_csv_accepted as (w' & -> & Hw');
      [|exact Hput|exact Hsha|exact Hserved|done].
    by apply merge_frames_nonempty.
Qed.


End store.

Lemma write_conditioned_on_sha_before_put_witness :
  let result :=
    append_data_to_github race "t" (Some [monday_row]) before_race in
  result.1 = true ∧ dataset result.2 = [thursday_row; monday_row].
Proof.
  cbv zeta.
  refine (proj2 (write_conditioned_on_sha_before_put race "t" [monday_row]
                   before_race _ _) _ _ _); [done|vm_compute; lia|done..].
Defined.

(** C2 as stated fails: the other writer's commit lies between this
    client's read and its write-back, yet the merge reports success with
    the other writer's SHA and the dataset loses Friday's row. *)
Lemma lost_update_counterexample :
  let result :=
    append_data_to_github race "t" (Some [monday_row]) before_race in
  result.1 = true
  ∧ dataset result.2 = [thursday_row; monday_row]
  ∧ (friday_row ∉ dataset (snd result))
  ∧ last (requests (snd result))
    = Some (PUT_contents "t" "📊 Update ETF data for 2024-01-08 (1 ETFs)"
                         [thursday_row; monday_row] (Some 1%nat)).
Proof.
  vm_compute. split_and!; try done.
  intros Hin. repeat (apply elem_of_cons in Hin as [Hin|Hin]; [done|]).
  by apply elem_of_nil in Hin.
Qed.



Lemma append_twice_example :
  let once := (append_data_to_github quiet "t" (Some [monday_row; friday_row])
                                     before_race).2 in
  dataset once = [thursday_row; friday_row; monday_row].
Proof. by vm_compute. Qed.

(* ------------------------------------------------------------------ *)
(** ** The local CSV *)
(* ------------------------------------------------------------------ *)

Section local_csv.

(** X15. When every row of the snapshot carries the date of its first
    row, [save_to_csv] keeps the invariant: at most one row per
    (code, date) in the local file. *)
Lemma save_to_csv_single_date (r : Row) (rows existing : list Row)
    (csv_path : string) (fs : gmap string (list Row)) :
  fs !! csv_path = Some existing →
  one_row_per_key existing → one_row_per_key (r :: rows) →
  Forall (λ x, row_date x = row_date r) rows →
  one_row_per_key
    (load_from_csv csv_path (save_to_csv (Some (r :: rows)) csv_path fs)).
Proof.
  intros Hfs He Hn Hdate. unfold load_from_csv, save_to_csv.
  rewrite Hfs, lookup_insert_eq. unfold one_row_per_key in *.
  rewrite fmap_app. apply NoDup_app. split_and!; [| |done].
  - clear Hfs. induction existing as [|x l IH]; [constructor|].
    rewrite filter_cons. apply NoDup_cons in He as [Hx Hl].
    case_decide; [|by apply IH]. cbn. apply NoDup_cons. split; [|by apply IH].
    intros (x' & Hk & [_ Hx']%list_elem_of_filter)%list_elem_of_fmap.
    apply Hx. rewrite Hk. by apply list_elem_of_fmap_2.
  - intros k (x & -> & [Hx _]%list_elem_of_filter)%list_elem_of_fmap
           (x' & Hk & Hx')%list_elem_of_fmap.
    apply Hx. injection Hk as _ ->.
    apply elem_of_cons in Hx' as [->|Hx']; [done|].
    rewrite Forall_forall in Hdate. by apply Hdate.
Qed.

End local_csv.

(** C3 fails on the local cache.  The snapshot of the two-code scenario
    is saved twice, as by two runs on one day.  [save_to_csv] removes
    the old rows of the first row's date only, so after the second save
    the old row of (510001, 2024-03-06) stays next to the new one.
    The merge of [append_data_to_github] replaces it. *)
Theorem save_to_csv_keeps_stale_date :
  let first_save := save_to_csv (Some scenario_rows) local_path ∅ in
  let second_save := save_to_csv (Some scenario_rows) local_path first_save in
  load_from_csv local_path first_save = scenario_rows
  ∧ one_row_per_key scenario_rows
  ∧ (∃ old new,
       load_from_csv local_path second_save = old :: scenario_rows
       ∧ scenario_rows !! 1%nat = Some new
       ∧ row_key old = ("510001", "2024-03-06")
       ∧ row_key new = ("510001", "2024-03-06"))
  ∧ ¬ one_row_per_key (load_from_csv local_path second_save)
  ∧ merge_frames scenario_rows scenario_rows = scenario_rows.
Proof.
  cbv zeta. split_and!.
  - by vm_compute.
  - vm_compute. apply NoDup_cons. split; [|repeat constructor; set_solver].
    intros [E|E%elem_of_nil]%elem_of_cons; done.
  - do 2 eexists. by vm_compute.
  - vm_compute. intros [Hnot _]%NoDup_cons. apply Hnot. right. left.
  - by vm_compute.
Qed.

(* ------------------------------------------------------------------ *)
(** ** Worker pools *)
(* ------------------------------------------------------------------ *)

Lemma enabled_inv (max_workers : nat) (a : action) (st : pool_state) :
  a ∈ enabled max_workers st →
  match a with
  | Start => queue st ≠ []
  | Return j => is_Some (running st !! j)
  | Report j => is_Some (reporting st !! j)
  end.
Proof.
  unfold enabled. rewrite !elem_of_app, !list_elem_of_fmap.
  intros [Ha|[(j & -> & Hj)|(j & -> & Hj)]].
  - case_bool_decide as Hq; [|by apply elem_of_nil in Ha].
    apply list_elem_of_singleton in Ha as ->. tauto.
  - apply elem_of_seq in Hj. apply lookup_lt_is_Some. lia.
  - apply elem_of_seq in Hj. apply lookup_lt_is_Some. lia.
Qed.

(** The action the scheduler picks is one of the enabled ones. *)
Lemma choice_enabled (k : nat) (a0 : action) (acts : list action) :
  nth (k `mod` length (a0 :: acts)) (a0 :: acts) a0 ∈ a0 :: acts.
Proof.
  apply list_elem_of_In, nth_In, Nat.mod_upper_bound. done.
Qed.

Section pool_steps.
Context (max_workers : nat) (report_of : nat → option progress_event).

Lemma step_weight (a : action) (st : pool_state) :
  a ∈ enabled max_workers st →
  (weight (step report_of a st) < weight st)%nat.
Proof.
  intros Ha%enabled_inv. unfold weight, step. destruct a as [|j|j].
  - destruct (queue st); [done|]. cbn. rewrite length_app. cbn. lia.
  - destruct Ha as [code Hc]. rewrite Hc.
    assert (length (delete j (running st)) = length (running st) - 1)%nat
      by (by apply length_delete).
    apply lookup_lt_Some in Hc.
    destruct (report_of _); cbn; rewrite ?length_app; cbn; lia.
  - destruct Ha as [[code ev] Hc]. rewrite Hc.
    assert (length (delete j (reporting st)) = length (reporting st) - 1)%nat
      by (by apply length_delete).
    apply lookup_lt_Some in Hc. cbn. lia.
Qed.

Lemma step_tasks (a : action) (st : pool_state) :
  a ∈ enabled max_workers st →
  tasks_of (step report_of a st) ≡ₚ tasks_of st.
Proof.
  intros Ha%enabled_inv. unfold tasks_of, step. destruct a as [|j|j].
  - destruct (queue st) as [|c q]; [done|]. cbn. solve_Permutation.
  - destruct Ha as [code Hc]. rewrite Hc.
    pose proof (delete_Permutation _ _ _ Hc) as Hp.
    set (rest := delete j (running st)) in *. clearbody rest.
    destruct (report_of _); cbn; rewrite ?fmap_app, Hp; cbn;
      solve_Permutation.
  - destruct Ha as [[code ev] Hc]. rewrite Hc. cbn.
    pose proof (delete_Permutation _ _ _ Hc) as Hp.
    set (rest := delete j (reporting st)) in *. clearbody rest.
    rewrite Hp. cbn. solve_Permutation.
Qed.

(** What every step of an enabled action preserves holds at the end. *)
Lemma run_pool_invariant (I : pool_state → Prop) (fuel : nat)
    (choices : list nat) (st : pool_state) :
  (∀ a st, a ∈ enabled max_workers st → I st → I (step report_of a st)) →
  I st → I (run_pool max_workers report_of fuel choices st).
Proof.
  intros Hstep. revert choices st.
  induction fuel as [|fuel IH]; intros choices st Hst; [done|].
  cbn [run_pool]. destruct (enabled max_workers st) as [|a0 acts] eqn:E; [done|].
  apply IH, Hstep; [|done]. rewrite E. apply choice_enabled.
Qed.

End pool_steps.

Section pool_drain.
Context (max_workers : nat) (report_of : nat → option progress_event).
Hypothesis workers_pos : (0 < max_workers)%nat.

Lemma enabled_nil (st : pool_state) :
  enabled max_workers st = [] →
  queue st = [] ∧ running st = [] ∧ reporting st = [].
Proof.
  unfold enabled. intros [Hs Hr]%app_eq_nil.
  apply app_eq_nil in Hr as [Hr Hp'].
  apply fmap_nil_inv in Hr, Hp'.
  assert (length (running st) = 0%nat) as Hlr.
  { destruct (length (running st)); [done|discriminate]. }
  assert (length (reporting st) = 0%nat) as Hlp.
  { destruct (length (reporting st)); [done|discriminate]. }
  apply nil_length_inv in Hlr, Hlp. split_and!; [|done..].
  case_bool_decide as Hq; [done|]. destruct (queue st); [done|].
  exfalso. apply Hq. rewrite Hlr, Hlp. split; [done|]. simpl. lia.
Qed.

(** With enough fuel the pool runs until nothing is left to do. *)
Lemma run_pool_drained (fuel : nat) (choices : list nat) (st : pool_state) :
  (weight st ≤ fuel)%nat →
  enabled max_workers (run_pool max_workers report_of fuel choices st) = [].
Proof.
  revert choices st. induction fuel as [|fuel IH]; intros choices st Hw.
  - cbn. destruct (enabled max_workers st) as [|a acts] eqn:E; [done|].
    assert (a ∈ enabled max_workers st) as Ha by (rewrite E; left).
    apply (step_weight max_workers report_of) in Ha. lia.
  - cbn [run_pool].
    destruct (enabled max_workers st) as [|a0 acts] eqn:E; [done|].
    apply IH.
    pose proof (choice_enabled (hd 0%nat choices) a0 acts) as Ha.
    rewrite <- E in Ha at 3. apply (step_weight max_workers report_of) in Ha. lia.
Qed.

(** Every submitted task finishes, exactly once. *)
Lemma thread_pool_finished (codes : list string) (choices : list nat) :
  finished (thread_pool max_workers report_of codes choices) ≡ₚ codes.
Proof.
  unfold thread_pool.
  set (st0 := mkPool codes [] [] 0 [] [] 0).
  set (st := run_pool _ _ _ _ _).
  assert (tasks_of st ≡ₚ codes) as Htasks.
  { apply (run_pool_invariant max_workers report_of
             (λ st, tasks_of st ≡ₚ codes)).
    - intros a s Ha Hs. by rewrite (step_tasks max_workers report_of).
    - unfold tasks_of. cbn. by rewrite app_nil_r. }
  assert (enabled max_workers st = []) as Hend.
  { apply run_pool_drained. unfold weight. cbn. lia. }
  apply enabled_nil in Hend as (Hq & Hr & Hp).
  unfold tasks_of in Htasks. by rewrite Hq, Hr, Hp in Htasks.
Qed.

End pool_drain.

(** *** What reaches the callback *)

Section pool_progress.
Context (max_workers : nat) (report_of : nat → option progress_event).
Context (total : nat) (g : nat → Q) (lo hi : Q).
Hypothesis report_value :
  ∀ c ev, report_of c = Some ev → fraction_of ev = g c.
Hypothesis g_mono : ∀ c c', (c ≤ c' ≤ total)%nat → (g c <= g c')%Q.
Hypothesis g_bounds : ∀ c, (c ≤ total)%nat → (lo <= g c <= hi)%Q.

Lemma pool_ok_step (a : action) (st : pool_state) :
  a ∈ enabled max_workers st →
  pool_ok total g lo hi st → pool_ok total g lo hi (step report_of a st).
Proof.
  intros Ha%enabled_inv (Hcount & Hdel & Hrep & Hpeak & Hmono).
  unfold pool_ok, step. destruct a as [|j|j].
  - destruct (queue st) as [|c q] eqn:Eq; [done|]. cbn.
    rewrite length_app. cbn in *. split_and!; [lia|done..].
  - destruct Ha as [code Hc]. rewrite Hc.
    assert (length (delete j (running st)) = length (running st) - 1)%nat
      as Hlen by (by apply length_delete).
    apply lookup_lt_Some in Hc.
    assert (counter st ≤ S (counter st) ≤ total)%nat as Hle by lia.
    destruct (report_of (S (counter st))) as [ev|] eqn:Er; cbn.
    + apply report_value in Er. rewrite length_app. cbn.
      split_and!; [lia|done| |lia|].
      { apply Forall_app. split; [done|]. constructor; [|done]. cbn.
        rewrite Er. apply g_bounds. lia. }
      intros Hp. destruct (reporting st) as [|p ps] eqn:Erep; [|cbn in Hp; lia].
      destruct Hmono as (Hs & Hd & _); [lia|]. cbn.
      split_and!; [done| |].
      * eapply Forall_impl; [exact Hd|]. intros x Hx. cbn in Hx.
        eapply Qle_trans; [exact Hx|]. by apply g_mono.
      * constructor; [|done]. cbn. rewrite Er. split; [apply Qle_refl|].
        eapply Forall_impl; [exact Hd|]. intros x Hx. cbn in Hx.
        eapply Qle_trans; [exact Hx|]. by apply g_mono.
    + split_and!; [lia|done..|].
      intros Hp. destruct (Hmono Hp) as (Hs & Hd & Hr). split_and!; [done| |].
      * eapply Forall_impl; [exact Hd|]. intros x Hx. cbn in Hx.
        eapply Qle_trans; [exact Hx|]. by apply g_mono.
      * eapply Forall_impl; [exact Hr|]. intros p [Hp1 Hp2]. split; [|done].
        eapply Qle_trans; [exact Hp1|]. by apply g_mono.
  - destruct Ha as [[code ev] Hc]. rewrite Hc. cbn.
    assert (length (delete j (reporting st)) = length (reporting st) - 1)%nat
      as Hlen by (by apply length_delete).
    pose proof (list_elem_of_lookup_2 _ _ _ Hc) as Hin.
    pose proof (lookup_lt_Some _ _ _ Hc) as Hj.
    split_and!; [done| | |lia|].
    + apply Forall_app. split; [done|]. constructor; [|done].
      rewrite Forall_forall in Hrep. by apply (Hrep (code, ev)).
    + by apply Forall_delete.
    + intros Hp. destruct (Hmono Hp) as (Hs & Hd & Hr).
      destruct (reporting st) as [|p [|p' ps]] eqn:Erep;
        [done| |cbn in Hpeak; lia].
      destruct j as [|j]; [|done]. injection Hc as ->. cbn.
      apply Forall_inv in Hr as [Hr1 Hr2]. cbn in Hr1, Hr2.
      split_and!; [| |done].
      * rewrite fmap_app. apply StronglySorted_app_2; [|done|by repeat constructor].
        intros x1 x2 (e1 & -> & He1)%list_elem_of_fmap Hx2.
        apply list_elem_of_singleton in Hx2 as ->.
        rewrite Forall_forall in Hr2. by apply Hr2.
      * apply Forall_app. split; [done|]. by constructor.
Qed.

(** A pool started on [total] tasks. *)
Lemma thread_pool_progress (codes : list string) (choices : list nat) :
  (0 < max_workers)%nat → length codes = total →
  let pool := thread_pool max_workers report_of codes choices in
  Forall (λ ev, (lo <= fraction_of ev <= hi)%Q) (delivered pool)
  ∧ ((peak pool ≤ 1)%nat →
     StronglySorted Qle (fraction_of <$> delivered pool)).
Proof.
  intros Hw Hlen pool.
  assert (pool_ok total g lo hi pool) as (_ & Hdel & _ & _ & Hmono).
  { apply (run_pool_invariant max_workers report_of (pool_ok total g lo hi)).
    - apply pool_ok_step.
    - unfold pool_ok. cbn.
      split_and!; [lia|constructor..|lia|]. intros _.
      split_and!; constructor. }
  split; [done|]. intros Hp. by destruct (Hmono Hp).
Qed.

End pool_progress.

Section one_at_a_time.
Context (max_workers : nat) (report_of : nat → option progress_event).
Hypothesis workers_pos : (0 < max_workers)%nat.

Lemma run_pool_one_at_a_time (fuel : nat) (st : pool_state) :
  (length (running st) + length (reporting st) ≤ 1)%nat →
  (peak st ≤ 1)%nat →
  (peak (run_pool max_workers report_of fuel (replicate fuel 1%nat) st) ≤ 1)%nat.
Proof.
  revert st. induction fuel as [|fuel IH]; intros st Hone Hpeak; [done|].
  cbn [run_pool replicate hd tl]. unfold enabled.
  destruct st as [q run rep c del fin pk]. cbn in *.
  destruct run as [|r [|r' run]], rep as [|p [|p' rep]]; cbn in *; try lia.
  - case_bool_decide as Hq; cbn; [|done].
    destruct q as [|code q]; [by destruct Hq|]. apply IH; cbn; lia.
  - destruct p as [code ev]. case_bool_decide as Hq; cbn; apply IH; cbn; lia.
  - case_bool_decide as Hq; cbn;
      (destruct (report_of (S c)); cbn; apply IH; cbn; lia).
Qed.

(** Tasks run one at a time is one of the schedules, and no two reports
    are ever pending together in it. *)
Lemma one_at_a_time_serialized (codes : list string) :
  (peak (thread_pool max_workers report_of codes
           (one_at_a_time (length codes))) ≤ 1)%nat.
Proof.
  unfold thread_pool, one_at_a_time. apply run_pool_one_at_a_time; cbn; lia.
Qed.

End one_at_a_time.

(* ------------------------------------------------------------------ *)
(** ** Progress of a run *)
(* ------------------------------------------------------------------ *)

Section ratios.

Lemma nat_to_Q_nonneg (n : nat) : (0 <= nat_to_Q n)%Q.
Proof. unfold nat_to_Q. rewrite <- (Zle_Qle 0). lia. Qed.

Lemma ratio_mono (c c' total : nat) :
  (c ≤ c')%nat →
  (nat_to_Q c / nat_to_Q total <= nat_to_Q c' / nat_to_Q total)%Q.
Proof.
  intros Hc. unfold Qdiv. apply Qmult_le_compat_r.
  - unfold nat_to_Q. rewrite <- Zle_Qle. lia.
  - apply Qinv_le_0_compat, nat_to_Q_nonneg.
Qed.

Lemma ratio_bounds (c total : nat) :
  (c ≤ total)%nat → (0 <= nat_to_Q c / nat_to_Q total <= 1)%Q.
Proof.
  intros Hc. split.
  - unfold Qdiv. apply Qmult_le_0_compat; [apply nat_to_Q_nonneg|].
    apply Qinv_le_0_compat, nat_to_Q_nonneg.
  - destruct total as [|total].
    + replace c with 0%nat by lia. done.
    + apply Qle_shift_div_r.
      * unfold nat_to_Q. rewrite <- (Zlt_Qlt 0). lia.
      * rewrite Qmult_1_l. unfold nat_to_Q. rewrite <- Zle_Qle. lia.
Qed.

Lemma _progress_fraction (pct : Q) (msg : string) :
  fraction_of (_progress pct msg) = capped pct.
Proof. done. Qed.

Lemma capped_below (pct : Q) : (pct <= 0.99)%Q → capped pct = pct.
Proof. intros Hp%Qle_bool_iff. unfold capped. by rewrite Hp. Qed.

Lemma capped_mono (p p' : Q) : (p <= p')%Q → (capped p <= capped p')%Q.
Proof.
  intros Hp. unfold capped.
  destruct (Qle_bool p 0.99) eqn:E, (Qle_bool p' 0.99) eqn:E'.
  - done.
  - by apply Qle_bool_iff.
  - apply Qle_bool_iff in E'. apply not_true_iff_false in E.
    rewrite Qle_bool_iff in E. lra.
  - apply Qle_refl.
Qed.

Lemma daily_report_fraction (total c : nat) (ev : progress_event) :
  daily_report total c = Some ev → fraction_of ev = daily_fraction total c.
Proof. unfold daily_report. destruct (_ || _); [|done]. by intros [= <-]. Qed.

Lemma fee_report_fraction (missing c : nat) (ev : progress_event) :
  fee_report missing c = Some ev → fraction_of ev = fee_fraction missing c.
Proof. unfold fee_report. destruct (_ || _); [|done]. by intros [= <-]. Qed.

Lemma daily_fraction_mono (total c c' : nat) :
  (c ≤ c')%nat → (daily_fraction total c <= daily_fraction total c')%Q.
Proof.
  intros Hc%(ratio_mono _ _ total). apply capped_mono.
  set (r := (nat_to_Q c / _)%Q) in *. set (r' := (nat_to_Q c' / _)%Q) in *.
  lra.
Qed.

Lemma fee_fraction_mono (missing c c' : nat) :
  (c ≤ c')%nat → (fee_fraction missing c <= fee_fraction missing c')%Q.
Proof.
  intros Hc%(ratio_mono _ _ missing). apply capped_mono.
  set (r := (nat_to_Q c / _)%Q) in *. set (r' := (nat_to_Q c' / _)%Q) in *.
  lra.
Qed.

Lemma daily_fraction_bounds (total c : nat) :
  (c ≤ total)%nat → (0.05 <= daily_fraction total c <= 0.55)%Q.
Proof.
  intros [H0 H1]%ratio_bounds. unfold daily_fraction.
  set (r := (nat_to_Q c / _)%Q) in *. rewrite capped_below; lra.
Qed.

Lemma fee_fraction_bounds (missing c : nat) :
  (c ≤ missing)%nat → (0.62 <= fee_fraction missing c <= 0.92)%Q.
Proof.
  intros [H0 H1]%ratio_bounds. unfold fee_fraction.
  set (r := (nat_to_Q c / _)%Q) in *. rewrite capped_below; lra.
Qed.

End ratios.

Section run_progress.

Lemma daily_pool_progress (ETF_CODES : list string) (w : World) :
  let pool := daily_pool ETF_CODES w in
  Forall (λ ev, (0.05 <= fraction_of ev <= 0.55)%Q) (delivered pool)
  ∧ ((peak pool ≤ 1)%nat →
     StronglySorted Qle (fraction_of <$> delivered pool)).
Proof.
  apply (thread_pool_progress 10 _ (length ETF_CODES)
           (daily_fraction (length ETF_CODES))); [| | |lia|done].
  - apply daily_report_fraction.
  - intros c c' Hc. apply daily_fraction_mono. lia.
  - apply daily_fraction_bounds.
Qed.

Lemma fee_pool_progress (ETF_CODES : list string) (w : World) :
  let pool := fee_pool ETF_CODES w in
  Forall (λ ev, (0.62 <= fraction_of ev <= 0.92)%Q) (delivered pool)
  ∧ ((peak pool ≤ 1)%nat →
     StronglySorted Qle (fraction_of <$> delivered pool)).
Proof.
  unfold fee_pool. destruct (missing_fee_codes ETF_CODES w) as [|c l] eqn:E.
  { cbn. split; [constructor|]. intros _. constructor. }
  apply (thread_pool_progress 8 _ (length (c :: l))
           (fee_fraction (length (c :: l)))); [| | |lia|done].
  - apply fee_report_fraction.
  - intros k k' Hk. apply fee_fraction_mono. lia.
  - apply fee_fraction_bounds.
Qed.

Lemma phases_sorted (daily fee : list Q) :
  Forall (λ x, (0.05 <= x <= 0.55)%Q) daily →
  Forall (λ x, (0.62 <= x <= 0.92)%Q) fee →
  StronglySorted Qle daily → StronglySorted Qle fee →
  StronglySorted Qle
    ([0.01%Q] ++ [0.05%Q] ++ daily ++ [0.58%Q] ++ [0.62%Q] ++ fee
     ++ [0.94%Q] ++ [1.0%Q]).
Proof.
  intros Hd Hf Sd Sf. rewrite Forall_forall in Hd, Hf.
  repeat (apply StronglySorted_app_2;
          [|first [done | by repeat constructor]|]);
    [..|by repeat constructor];
    intros x y Hx Hy;
    repeat (apply elem_of_app in Hy as [Hy|Hy]);
    repeat match goal with
           | H : _ ∈ [_] |- _ => apply list_elem_of_singleton in H as ->
           | H : _ ∈ daily |- _ => apply Hd in H
           | H : _ ∈ fee |- _ => apply Hf in H
           end; lra.
Qed.

(** C9, as the code has it.  Every fraction a run delivers lies in
    [0, 1], whatever the scheduler does; and the fractions never
    decrease in a run in which no two reports of a pool are ever
    pending together, that is, in which a task that has computed its
    fraction hands it to the callback before another task computes
    one.  The runs in which the tasks of each pool go one at a time are
    of that kind. *)
Theorem progress_fractions `{Sorting} (ETF_CODES : list string) (w : World) :
  let run := fetch_all_etf_data ETF_CODES w in
  Forall (λ x, (0 <= x <= 1)%Q) (fractions run)
  ∧ ((peak (daily_pool ETF_CODES w) ≤ 1)%nat →
     (peak (fee_pool ETF_CODES w) ≤ 1)%nat →
     Sorted Qle (fractions run))
  ∧ (daily_schedule w = one_at_a_time (length ETF_CODES) →
     fee_schedule w
     = one_at_a_time (length (missing_fee_codes ETF_CODES w)) →
     Sorted Qle (fractions run)).
Proof.
  cbv zeta.
  assert (Forall (λ x, (0 <= x <= 1)%Q)
                 (fractions (fetch_all_etf_data ETF_CODES w))
          ∧ ((peak (daily_pool ETF_CODES w) ≤ 1)%nat →
             (peak (fee_pool ETF_CODES w) ≤ 1)%nat →
             Sorted Qle (fractions (fetch_all_etf_data ETF_CODES w))))
    as [Hbounds Hsorted].
  { destruct (daily_pool_progress ETF_CODES w) as [Hd Sd].
    destruct (fee_pool_progress ETF_CODES w) as [Hf Sf].
    cbv zeta in *.
    assert (fractions (fetch_all_etf_data ETF_CODES w)
            = [0.01%Q] ++ [0.05%Q]
              ++ (fraction_of <$> delivered (daily_pool ETF_CODES w))
              ++ [0.58%Q] ++ [0.62%Q]
              ++ (fraction_of <$> delivered (fee_pool ETF_CODES w))
              ++ [0.94%Q] ++ [1.0%Q]) as ->.
    { unfold fractions, fetch_all_etf_data. cbn [progress].
      by rewrite !map_app. }
    assert (Forall (λ x, (0.05 <= x <= 0.55)%Q)
                   (fraction_of <$> delivered (daily_pool ETF_CODES w)))
      as Hd' by (by apply Forall_fmap).
    assert (Forall (λ x, (0.62 <= x <= 0.92)%Q)
                   (fraction_of <$> delivered (fee_pool ETF_CODES w)))
      as Hf' by (by apply Forall_fmap).
    split.
    - rewrite !Forall_app, !Forall_singleton.
      split_and!; try lra; (eapply Forall_impl; [eassumption|]);
        cbn; intros; lra.
    - intros Pd Pf. apply StronglySorted_Sorted, phases_sorted; auto. }
  split_and!; [done..|]. intros Hd Hf. apply Hsorted.
  - unfold daily_pool. rewrite Hd. apply one_at_a_time_serialized. lia.
  - unfold fee_pool. destruct (missing_fee_codes ETF_CODES w) eqn:E.
    + cbn. lia.
    + rewrite Hf. apply one_at_a_time_serialized. lia.
Qed.

End run_progress.

Lemma progress_fractions_witness :
  Sorted Qle (fractions (fetch_all_etf_data two_codes scenario)).
Proof.
  apply (proj1 (proj2 (progress_fractions two_codes scenario)));
    vm_compute; lia.
Defined.

(** C9 as stated fails: in a run over 51 codes the callback gets 0.55
    (counter 51) before 0.5402 (counter 50). *)
Lemma progress_decreases_counterexample :
  (∃ x y, fractions (fetch_all_etf_data universe_51 racing) !! 2%nat = Some x
          ∧ fractions (fetch_all_etf_data universe_51 racing) !! 3%nat = Some y
          ∧ (x == 0.55)%Q ∧ (y == 551 # 1020)%Q ∧ (y < x)%Q)
  ∧ ¬ Sorted Qle (fractions (fetch_all_etf_data universe_51 racing)).
Proof.
  assert (fractions (fetch_all_etf_data universe_51 racing)
          = [0.01%Q; 0.05%Q; 280500 # 510000; 275500 # 510000; 0.58%Q;
             0.62%Q; 466200 # 510000; 469200 # 510000; 0.94%Q; 1.0%Q]) as ->.
  { by vm_compute. }
  split.
  - do 2 eexists. split_and!; [done|done|done|done|done].
  - intros Hs. do 2 apply Sorted_inv in Hs as [Hs _].
    apply Sorted_inv in Hs as [_ Hs]. apply HdRel_inv in Hs.
    by vm_compute in Hs.
Qed.

(* ------------------------------------------------------------------ *)
(** ** The series fetcher *)
(* ------------------------------------------------------------------ *)

Section series_fetcher.
Context `{Sorting}.

Lemma sort_by_date_ascending (df : list Bar) : ascending (sort_by bar_leb df).
Proof.
  unfold ascending. rewrite <- (list_fmap_id (sort_by _ _)).
  eapply (StronglySorted_fmap id (λ a b, bar_leb a b = true)).
  - intros x y. unfold bar_leb. by rewrite Z.leb_le.
  - apply sort_by_sorted; [apply bar_leb_total | apply bar_leb_trans].
Qed.

(** Every series that is returned comes from a frame of the quote
    source all of whose dates parse. *)
Lemma daily_kline_some_inv (src : string → quote_reply) (code : string)
    (df : list Bar) :
  get_etf_daily_kline_sina src code = Some df →
  ∃ raw parsed,
    src (_get_sina_symbol code) = Returns (Some raw)
    ∧ mapM parse_bar raw = Some parsed.
Proof.
  unfold get_etf_daily_kline_sina.
  destruct (src _) as [|[[|r raw]|]]; [done| | |done].
  - intros _. by exists [], [].
  - destruct (mapM parse_bar (r :: raw)) as [parsed|] eqn:E; [|done].
    intros _. by exists (r :: raw), parsed.
Qed.

(** C5, as the code has it.  Whenever the quote source returns a frame
    whose dates parse, the fetcher returns a series; its bars are in
    ascending date order, bars of the same date next to each other, and
    they are the rows received, each exactly once: nothing is dropped. *)
Theorem daily_kline_ascending_keeps_all (src : string → quote_reply)
    (code : string) (raw : list RawBar) (parsed : list Bar) :
  src (_get_sina_symbol code) = Returns (Some raw) →
  mapM parse_bar raw = Some parsed →
  ∃ df, get_etf_daily_kline_sina src code = Some df
        ∧ ascending df ∧ df ≡ₚ parsed.
Proof.
  intros Hsrc Hparse. unfold get_etf_daily_kline_sina. rewrite Hsrc.
  destruct raw as [|r raw].
  - injection Hparse as <-. exists []. split_and!; [done|constructor|done].
  - rewrite Hparse. cbn. eexists. split_and!; [done|..].
    + apply sort_by_date_ascending.
    + apply sort_by_perm.
Qed.

End series_fetcher.

Lemma daily_kline_ascending_keeps_all_witness :
  ∃ df, get_etf_daily_kline_sina repeated_date_source "510300" = Some df
        ∧ ascending df
        ∧ df ≡ₚ [plain_bar 19725 10; plain_bar 19724 9; plain_bar 19725 11].
Proof.
  apply (daily_kline_ascending_keeps_all repeated_date_source "510300"
           repeated_date_raw); reflexivity.
Defined.

(** C5 as stated fails: both bars of the repeated date are returned, so
    the series is not strictly ascending and the earlier of the two is
    still there. *)
Lemma daily_kline_duplicates_counterexample :
  get_etf_daily_kline_sina repeated_date_source "510300"
  = Some [plain_bar 19724 9; plain_bar 19725 10; plain_bar 19725 11]
  ∧ ¬ strictly_ascending
        [plain_bar 19724 9; plain_bar 19725 10; plain_bar 19725 11].
Proof.
  split; [by vm_compute|].
  intros [Hs _]%StronglySorted_inv. apply StronglySorted_inv in Hs as [_ Hs].
  apply Forall_inv in Hs. cbn in Hs. lia.
Qed.

(* ------------------------------------------------------------------ *)
(** ** The snapshot of a run *)
(* ------------------------------------------------------------------ *)

Lemma foldl_insert_lookup {V : Type} (f : string → V) (m : gmap string V)
    (l : list string) (k : string) :
  foldl (λ m c, <[c := f c]> m) m l !! k
  = if decide (k ∈ l) then Some (f k) else m !! k.
Proof.
  revert m. induction l as [|c l IH]; intros m; cbn.
  { by rewrite decide_False by apply not_elem_of_nil. }
  rewrite IH. destruct (decide (k ∈ l)) as [Hl|Hl].
  - by rewrite decide_True by (by right).
  - destruct (decide (k = c)) as [->|Hne].
    + rewrite decide_True by left. apply lookup_insert_eq.
    + rewrite decide_False by (by intros [?|?]%elem_of_cons).
      by apply lookup_insert_ne.
Qed.

Lemma foldl_pointwise {A B : Type} (f g : A → B → A) (a : A) (l : list B) :
  (∀ a b, f a b = g a b) → foldl f a l = foldl g a l.
Proof.
  intros Hfg. revert a. induction l as [|b l IH]; intros a; [done|].
  cbn. by rewrite Hfg, IH.
Qed.

Section snapshot.
Context `{Sorting}.

Lemma daily_data_lookup (ETF_CODES : list string) (w : World) (code : string) :
  code ∈ ETF_CODES →
  daily_data ETF_CODES w !! code
  = Some (get_etf_daily_kline_sina (fund_etf_hist_sina w) code).
Proof.
  intros Hc. unfold daily_data. rewrite foldl_insert_lookup.
  rewrite decide_True; [done|]. unfold daily_pool.
  rewrite thread_pool_finished; [done|lia].
Qed.

Lemma weekly_data_lookup (ETF_CODES : list string) (w : World) (code : string) :
  code ∈ ETF_CODES →
  weekly_data ETF_CODES w !! code
  = Some (resample_daily_to_weekly
            (get_etf_daily_kline_sina (fund_etf_hist_sina w) code)).
Proof.
  intros Hc. unfold weekly_data.
  rewrite (foldl_insert_lookup
             (λ c, resample_daily_to_weekly (mjoin (daily_data ETF_CODES w !! c)))).
  rewrite decide_True by done. by rewrite daily_data_lookup.
Qed.

Lemma fees_cache_lookup (ETF_CODES : list string) (w : World) (code : string) :
  code ∈ ETF_CODES →
  fees_cache ETF_CODES w !! code = Some (fee_entry w code).
Proof.
  intros Hc. unfold fees_cache.
  rewrite (foldl_pointwise _
             (λ m c, <[c := let '(mgmt, custody) :=
                              get_fund_fees_scrape (eastmoney w) c in
                            {[ "mgmt" := mgmt; "custody" := custody ]}]> m)).
  2: { intros m c. by destruct (get_fund_fees_scrape _ c). }
  rewrite foldl_insert_lookup. unfold fee_entry.
  assert (finished (fee_pool ETF_CODES w) ≡ₚ missing_fee_codes ETF_CODES w)
    as Hperm.
  { unfold fee_pool. destruct (missing_fee_codes ETF_CODES w) eqn:E; [done|].
    apply thread_pool_finished. lia. }
  case_decide as Hm; rewrite Hperm in Hm; unfold missing_fee_codes in Hm.
  - apply list_elem_of_filter in Hm as [-> _]. done.
  - destruct (fees_cache_file w !! code) eqn:E; [done|].
    exfalso. apply Hm. by apply list_elem_of_filter.
Qed.

(** A row depends on the run only through the name map, the fee entry
    and the K-line series of its own code. *)
Lemma build_row_unfold (ETF_CODES : list string) (w : World) (code : string) :
  code ∈ ETF_CODES →
  build_row ETF_CODES w code
  = let d_df := get_etf_daily_kline_sina (fund_etf_hist_sina w) code in
    let '(latest_close, ma60_val, ma60_rel, ma_cross) :=
      calculate_ma60_relation d_df in
    let '(dif, dea, macd, macd_turn) :=
      calculate_weekly_macd (resample_daily_to_weekly d_df) in
    mkRow (match d_df with
           | Some (b :: bs) => strftime_ymd (List.last bs b).(date)
           | _ => today w
           end)
          code
          (default code (get_etf_name_map (fund_name_em w) !! code))
          (default NA (fee_entry w code !! "mgmt"))
          (default NA (fee_entry w code !! "custody"))
          latest_close ma60_val ma60_rel ma_cross dif dea macd macd_turn.
Proof.
  intros Hc. unfold build_row.
  rewrite daily_data_lookup, weekly_data_lookup, fees_cache_lookup by done.
  done.
Qed.

Lemma build_row_code (ETF_CODES : list string) (w : World) (code : string) :
  row_code (build_row ETF_CODES w code) = code.
Proof.
  unfold build_row. destruct (calculate_ma60_relation _) as [[[? ?] ?] ?].
  by destruct (calculate_weekly_macd _) as [[[? ?] ?] ?].
Qed.


End snapshot.



(* ------------------------------------------------------------------ *)
(** ** More on the series fetcher and the name map *)
(* ------------------------------------------------------------------ *)

(** X1. The quote symbol is the code behind "sz" when the code starts
    with "15" and behind "sh" otherwise, and two codes never share a
    symbol. *)
Theorem sina_symbol_venue_and_injective (code code' : string) :
  _get_sina_symbol code
  = (if String.prefix "15" code then "sz" else "sh") +:+ code
  ∧ (_get_sina_symbol code = _get_sina_symbol code' → code = code').
Proof.
  unfold _get_sina_symbol. split; [by destruct (String.prefix "15" code)|].
  destruct (String.prefix "15" code), (String.prefix "15" code');
    cbn; by intros [=].
Qed.

Lemma dict_of_pairs_snoc {V : Type} (kvs : list (string * V)) (kv : string * V) :
  dict_of_pairs (kvs ++ [kv]) = <[kv.1 := kv.2]> (dict_of_pairs kvs).
Proof. unfold dict_of_pairs. by rewrite foldl_snoc. Qed.

Lemma dict_of_pairs_lookup {V : Type} (kvs : list (string * V)) (k : string) :
  dict_of_pairs kvs !! k = snd <$> last (filter (λ kv, kv.1 = k) kvs).
Proof.
  induction kvs as [|kv kvs IH] using rev_ind; [done|].
  rewrite dict_of_pairs_snoc, filter_app, filter_cons, filter_nil.
  case_decide as Hk.
  - rewrite Hk, last_snoc. apply lookup_insert_eq.
  - rewrite app_nil_r, lookup_insert_ne by done. apply IH.
Qed.

(** X2. In the name map a code is found under its form padded with
    zeros to six characters, and with the name of the last row of the
    fund list that carries it; a code of no row is not in the map, and
    when the fund list cannot be fetched the map is empty. *)
Theorem name_map_lookup (df : list (string * string)) (code : string) :
  get_etf_name_map (Some df) !! code
  = snd <$> last (filter (λ row, zfill 6 row.1 = code) df)
  ∧ get_etf_name_map None !! code = None.
Proof.
  split; [|done]. unfold get_etf_name_map. rewrite dict_of_pairs_lookup.
  induction df as [|row df IH] using rev_ind; [done|].
  rewrite map_app. cbn [map]. rewrite !filter_app, !last_app.
  rewrite !filter_cons, !filter_nil. cbn.
  case_decide; cbn; [done|]. apply IH.
Qed.

(** X3. The series of a code is unavailable exactly when the quote
    source raises, returns nothing, or returns rows one of whose dates
    does not parse. *)
Theorem daily_kline_unavailable_iff `{Sorting} (src : string → quote_reply)
    (code : string) :
  get_etf_daily_kline_sina src code = None
  ↔ src (_get_sina_symbol code) = Raises
    ∨ src (_get_sina_symbol code) = Returns None
    ∨ ∃ raw, src (_get_sina_symbol code) = Returns (Some raw)
             ∧ Exists (λ r, raw_date r = None) raw.
Proof.
  assert (∀ r, parse_bar r = None ↔ raw_date r = None) as Hparse.
  { intros r. unfold parse_bar. by destruct (raw_date r). }
  unfold get_etf_daily_kline_sina.
  destruct (src _) as [|[[|r raw]|]].
  - split; [intros _; by left | done].
  - split; [done|].
    intros [?|[?|(raw & [= <-] & Hex)]]; try done. by apply Exists_nil in Hex.
  - split.
    + intros Hnone. right. right. exists (r :: raw). split; [done|].
      destruct (mapM parse_bar (r :: raw)) eqn:E; [done|].
      apply mapM_None_1 in E. eapply Exists_impl; [exact E|].
      intros x. apply Hparse.
    + intros [?|[?|(raw' & [= <-] & Hex)]]; try done.
      rewrite (mapM_None_2 parse_bar); [done|].
      eapply Exists_impl; [exact Hex|]. intros x. apply Hparse.
  - split; [intros _; right; by left | done].
Qed.

(* ------------------------------------------------------------------ *)
(** ** More on the indicators *)
(* ------------------------------------------------------------------ *)

(** X4. The outputs of [calculate_ma60_relation] agree with each other:
    the average is missing exactly when the relation is "N/A"; the
    close is missing exactly when there is no frame or fewer than 60
    bars; a cross-up comes only with "above", a cross-down only with
    "below", and either only with at least 61 bars. *)
Theorem ma60_outputs_agree (daily_df : option (list Bar)) :
  let '(latest_close, ma60_val, relation, cross) :=
    calculate_ma60_relation daily_df in
  (ma60_val = None ↔ relation = NA)
  ∧ (latest_close = None
     ↔ daily_df = None ∨ ∃ df, daily_df = Some df ∧ (length df < 60)%nat)
  ∧ (cross = CROSS_UP → relation = REL_ABOVE)
  ∧ (cross = CROSS_DOWN → relation = REL_BELOW)
  ∧ (cross ≠ "" → ∃ df, daily_df = Some df ∧ (61 ≤ length df)%nat).
Proof.
  unfold calculate_ma60_relation. destruct daily_df as [df|].
  2: { split_and!; try done. split; [by left|done]. }
  destruct (length df <? 61)%nat eqn:E61.
  - apply Nat.ltb_lt in E61. destruct (60 <=? length df)%nat eqn:E60.
    + apply Nat.leb_le in E60. cbv zeta.
      destruct (isnan (round (iloc (rolling_mean 60 (map close df)) (-1)) 4)).
      * split_and!; try done. split; [done|]. intros [?|(? & [= <-] & ?)];
          [done|lia].
      * destruct (fge _ _); split_and!; try done;
          (split; [done|]; intros [?|(? & [= <-] & ?)]; [done|lia]).
    + apply Nat.leb_gt in E60. split_and!; try done.
      split; [|done]. intros _. right. by exists df.
  - apply Nat.ltb_ge in E61. cbv zeta.
    destruct (isnan (round (iloc (rolling_mean 60 (map close df)) (-1)) 4)).
    { split_and!; try done. split; [done|].
      intros [?|(? & [= <-] & ?)]; [done|lia]. }
    assert (∀ b : bool, (∃ df0, Some df = Some df0 ∧ (61 ≤ length df0)%nat))
      as Hlen by (intros _; by exists df).
    destruct (negb (isnan _)); [|
      destruct (fge (round _ 4) (round _ 4)); split_and!; try done;
      (split; [done|]; intros [?|(? & [= <-] & ?)]; [done|lia])].
    destruct (fge (iloc (map close df) (-2)) _),
             (fge (round _ 4) (round _ 4)); cbn;
      split_and!; try done; try (by intros _; apply (Hlen true));
      (split; [done|]; intros [?|(? & [= <-] & ?)]; [done|lia]).
Qed.

Section flat_series.

Lemma ewm_scan_flat (alpha c : Q) (n : nat) :
  ewm_scan alpha (Num c, 1%Q) (replicate n (Num c)) = replicate n (Num c).
Proof.
  induction n as [|n IH]; [done|]. cbn.
  assert (Qeq_bool c c = true) as -> by (apply Qeq_bool_iff; reflexivity).
  cbn. by rewrite IH.
Qed.

Lemma ewm_mean_flat (span : nat) (c : Q) (n : nat) :
  ewm_mean span (replicate n (Num c)) = replicate n (Num c).
Proof. destruct n as [|n]; [done|]. cbn. by rewrite ewm_scan_flat. Qed.

Lemma iloc_replicate (x : float) (n : nat) (i : Z) :
  -Z.of_nat n ≤ i < 0 → iloc (replicate n x) i = x.
Proof.
  intros Hi. unfold iloc. rewrite length_replicate.
  destruct (i <? 0) eqn:E; [|apply Z.ltb_ge in E; lia].
  destruct ((0 <=? Z.of_nat n + i) && (Z.of_nat n + i <? Z.of_nat n)) eqn:E'.
  - apply andb_prop in E' as [E1%Z.leb_le E2%Z.ltb_lt].
    apply nth_lookup_Some, lookup_replicate_2. lia.
  - apply andb_false_iff in E' as [E'|E'];
      [apply Z.leb_gt in E' | apply Z.ltb_ge in E']; lia.
Qed.

End flat_series.

(** X5. A weekly series of at least 35 bars that all close at the same
    price has DIF, DEA and histogram equal to zero and no turn
    signal. *)
Theorem weekly_macd_flat (df : list Bar) (c : Q) :
  (35 ≤ length df)%nat →
  Forall (λ b, close b = Num c) df →
  calculate_weekly_macd (Some df)
  = (Some (Num 0), Some (Num 0), Some (Num 0), "").
Proof.
  intros Hlen Hflat.
  assert (map close df = replicate (length df) (Num c)) as Hclose.
  { clear Hlen. induction Hflat as [|b df Hb _ IH]; [done|].
    cbn. by rewrite Hb, IH. }
  assert (fsub (Num c) (Num c) = Num 0) as Hcc.
  { cbn. f_equal. rewrite (Qred_complete (c - c) 0); [done|]. ring. }
  assert (∀ n, map (fmul (of_int 2)) (replicate n (fsub (Num 0) (Num 0)))
               = replicate n (Num 0)) as Hmap.
  { intros n. induction n as [|n IH]; [done|].
    cbn [replicate map]. by rewrite IH. }
  unfold calculate_weekly_macd, calculate_weekly_macd_with.
  destruct (length df <? 26 + 9)%nat eqn:E; [apply Nat.ltb_lt in E; lia|].
  cbv zeta. unfold series_sub, series_scale.
  rewrite Hclose, !ewm_mean_flat, !zip_with_replicate, !Hcc, !ewm_mean_flat,
    !zip_with_replicate, !Hmap, length_replicate.
  destruct (2 <=? length df)%nat eqn:E2; [|apply Nat.leb_gt in E2; lia].
  rewrite !iloc_replicate by lia. done.
Qed.

Lemma weekly_macd_flat_witness :
  calculate_weekly_macd
    (Some (weeks_of_closes (replicate 40 (Num 1.234))))
  = (Some (Num 0), Some (Num 0), Some (Num 0), "").
Proof.
  apply (weekly_macd_flat _ 1.234); [vm_compute; lia|].
  vm_compute. repeat constructor.
Defined.

Section rounding.

Lemma round_half_even_nonpos (q : Q) : (q <= 0)%Q → round_half_even q ≤ 0.
Proof.
  intros Hq. unfold round_half_even.
  pose proof (Qfloor_le q) as Hfl. pose proof (Qlt_floor q) as Hfu.
  assert (Qfloor q ≤ 0) as Hf.
  { rewrite Zle_Qle. by eapply Qle_trans. }
  destruct (Qcompare_spec (q - inject_Z (Qfloor q)) (1 # 2)) as [Hc|Hc|Hc].
  - destruct (Z.even _); [lia|].
    destruct (decide (Qfloor q = 0)) as [E|]; [|lia].
    rewrite E in Hc. change (inject_Z 0) with 0%Q in Hc. lra.
  - lia.
  - destruct (decide (Qfloor q = 0)) as [E|]; [|lia].
    rewrite E in Hc. change (inject_Z 0) with 0%Q in Hc. lra.
Qed.

Lemma round_half_even_nonneg (q : Q) : (0 <= q)%Q → 0 ≤ round_half_even q.
Proof.
  intros Hq. unfold round_half_even.
  assert (0 ≤ Qfloor q) as Hf.
  { change 0 with (Qfloor 0). by apply Qfloor_resp_le. }
  destruct (Qcompare _ _); [destruct (Z.even _)|..]; lia.
Qed.

Lemma round_nonpos (q : Q) (n : nat) :
  (q <= 0)%Q → ∃ r, round (Num q) n = Num r ∧ (r <= 0)%Q.
Proof.
  intros Hq. eexists. split; [done|]. rewrite Qred_correct.
  unfold Qle. cbn. rewrite Z.mul_1_r.
  apply round_half_even_nonpos.
  rewrite <- (Qmult_0_l (inject_Z (Z.pos (10 ^ Pos.of_nat n)))).
  by apply Qmult_le_compat_r.
Qed.

Lemma round_nonneg (q : Q) (n : nat) :
  (0 <= q)%Q → ∃ r, round (Num q) n = Num r ∧ (0 <= r)%Q.
Proof.
  intros Hq. eexists. split; [done|]. rewrite Qred_correct.
  unfold Qle. cbn. rewrite Z.mul_1_r.
  apply round_half_even_nonneg. by apply Qmult_le_0_compat.
Qed.

End rounding.

(** X6. The turn signal agrees with the histogram that is reported with
    it: "red to green" comes only with a reported histogram of zero or
    less, "green to red" only with one of zero or more (a histogram that
    rounds to zero can carry either), and a signal comes only with at
    least 35 weekly bars. *)
Theorem macd_turn_agrees_with_histogram (weekly_df : option (list Bar)) :
  let '(dif, dea, hist, turn) := calculate_weekly_macd weekly_df in
  (turn = RED_TO_GREEN → ∃ h, hist = Some (Num h) ∧ (h <= 0)%Q)
  ∧ (turn = GREEN_TO_RED → ∃ h, hist = Some (Num h) ∧ (0 <= h)%Q)
  ∧ (turn ≠ "" → ∃ df, weekly_df = Some df ∧ (35 ≤ length df)%nat).
Proof.
  unfold calculate_weekly_macd, calculate_weekly_macd_with.
  destruct weekly_df as [df|]; [|done].
  destruct (length df <? 26 + 9)%nat eqn:E; [done|]. apply Nat.ltb_ge in E.
  cbv zeta. set (hist := series_scale 2 _).
  set (prev := (if (2 <=? length hist)%nat then iloc hist (-2) else of_int 0)).
  destruct (iloc hist (-1)) as [|curr] eqn:Ecurr.
  { assert (fle NaN (of_int 0) = false) as -> by done.
    assert (fgt NaN (of_int 0) = false) as -> by done.
    rewrite !andb_false_r. split_and!; try done. }
  destruct (fgt prev (of_int 0) && fle (Num curr) (of_int 0)) eqn:E1.
  - apply andb_prop in E1 as [_ Hle]. cbn in Hle. apply Qle_bool_iff in Hle.
    change (inject_Z 0) with 0%Q in Hle. split_and!; try done.
    + intros _. destruct (round_nonpos curr 4 Hle) as (r & -> & Hr). eauto.
    + intros _. by exists df.
  - destruct (fle prev (of_int 0) && fgt (Num curr) (of_int 0)) eqn:E2.
    + apply andb_prop in E2 as [_ Hgt]. cbn in Hgt.
      apply negb_true_iff, not_true_iff_false in Hgt.
      rewrite Qle_bool_iff in Hgt. change (inject_Z 0) with 0%Q in Hgt.
      split_and!; try done.
      * intros _. destruct (round_nonneg curr 4) as (r & -> & Hr); [lra|eauto].
      * intros _. by exists df.
    + split_and!; done.
Qed.

(* ------------------------------------------------------------------ *)
(** ** The resampler *)
(* ------------------------------------------------------------------ *)

Section resampler.

Lemma week_of_label (w : Z) : week_of (7 * w + 3) = w.
Proof.
  unfold week_of. replace (7 * w + 3 + 3) with (w * 7 + 6) by lia.
  rewrite Z.div_add_l by lia. change (6 `div` 7) with 0. lia.
Qed.

Lemma fsum_canonical (s : list float) (q : Q) :
  fsum s = Num q → Qred q = q.
Proof.
  destruct s as [|x s]; unfold fsum; cbn.
  - by intros [= <-].
  - destruct x as [|a]; [done|]. destruct (foldr fadd (of_int 0) s); [done|].
    cbn. intros [= <-]. apply Qcanon.Qred_involutive.
Qed.

(** What [weekly_bar] keeps: a bar dated on the Sunday of its week,
    without a missing field, with a volume in lowest terms, and made of
    at least one row of that week. *)
Lemma weekly_bar_inv (df : list Bar) (w : Z) (bar : Bar) :
  weekly_bar df w = Some bar →
  date bar = 7 * w + 3
  ∧ isnan (open bar) = false ∧ isnan (high bar) = false
  ∧ isnan (low bar) = false ∧ isnan (close bar) = false
  ∧ (∃ q, volume bar = Num q ∧ Qred q = q)
  ∧ ∃ d, d ∈ df ∧ week_of (date d) = w.
Proof.
  unfold weekly_bar. cbn [open high low close volume].
  set (rows := filter _ df).
  destruct (isnan (agg_first _)) eqn:E1; [done|].
  destruct (isnan (agg_max _)) eqn:E2; [done|].
  destruct (isnan (agg_min _)) eqn:E3; [done|].
  destruct (isnan (agg_last _)) eqn:E4; [done|].
  destruct (isnan (agg_sum _)) eqn:E5; [done|].
  cbn. intros [= <-]. cbn. split_and!; try done.
  - unfold agg_sum in *. destruct (fsum _) as [|q] eqn:Eq; [done|].
    exists q. split; [done|]. by eapply fsum_canonical.
  - destruct rows as [|d rows'] eqn:Erows; [done|].
    assert (d ∈ filter (λ b, week_of (date b) = w) df) as Hd.
    { fold rows. rewrite Erows. left. }
    apply list_elem_of_filter in Hd as [Hw Hd]. by exists d.
Qed.

Lemma omap_weekly_sorted (df : list Bar) (ws : list Z) :
  StronglySorted Z.lt ws →
  StronglySorted (λ a b, date a < date b) (omap (weekly_bar df) ws).
Proof.
  induction 1 as [|w ws Hs IH Hw]; cbn; [constructor|].
  destruct (weekly_bar df w) as [bar|] eqn:E; [|done].
  constructor; [done|]. apply Forall_forall.
  intros b (w' & Hw' & Hb)%list_elem_of_omap.
  apply weekly_bar_inv in E as (-> & _), Hb as (-> & _).
  rewrite Forall_forall in Hw. specialize (Hw w' Hw'). lia.
Qed.

Lemma seqZ_sorted (m n : Z) : StronglySorted Z.lt (seqZ m n).
Proof.
  destruct (decide (n ≤ 0)) as [|Hn]; [rewrite seqZ_nil by done; constructor|].
  rewrite <- (Z2Nat.id n) by lia. generalize (Z.to_nat n). clear.
  intros k. revert m. induction k as [|k IH]; intros m.
  { rewrite seqZ_nil by done. constructor. }
  rewrite seqZ_cons by lia. constructor.
  - replace (Z.pred (Z.of_nat (S k))) with (Z.of_nat k) by lia. apply IH.
  - apply Forall_seqZ. lia.
Qed.

End resampler.

(** X7. The weekly frame has one bar per week: its bars are dated on
    Sundays in strictly ascending order, none has a missing field, each
    is made of at least one daily bar of its week, and there are no
    more weekly bars than daily ones. *)
Theorem weekly_bars_shape (df weekly : list Bar) :
  resample_daily_to_weekly (Some df) = Some weekly →
  strictly_ascending weekly
  ∧ Forall (λ b, date b `mod` 7 = 3
                 ∧ isnan (open b) = false ∧ isnan (high b) = false
                 ∧ isnan (low b) = false ∧ isnan (close b) = false
                 ∧ isnan (volume b) = false
                 ∧ ∃ d, d ∈ df ∧ week_of (date d) = week_of (date b))
           weekly
  ∧ (length weekly ≤ length df)%nat.
Proof.
  unfold resample_daily_to_weekly. destruct df as [|b bs]; [done|].
  set (df := b :: bs). intros [= <-].
  set (ws := seqZ _ _).
  assert (strictly_ascending (omap (weekly_bar df) ws)) as Hsorted.
  { apply omap_weekly_sorted, seqZ_sorted. }
  assert (∀ x, x ∈ omap (weekly_bar df) ws →
               date x = 7 * week_of (date x) + 3
               ∧ weekly_bar df (week_of (date x)) = Some x) as Hweek.
  { intros x (w & _ & Hx)%list_elem_of_omap.
    pose proof (weekly_bar_inv _ _ _ Hx) as (Hd & _).
    rewrite Hd, week_of_label. by rewrite <- Hd. }
  split_and!; [done| |].
  - apply Forall_forall. intros x Hx. destruct (Hweek x Hx) as [Hd Hx'].
    apply weekly_bar_inv in Hx' as (_ & ? & ? & ? & ? & (q & Hq & _) & ?).
    split_and!; try done; [|by rewrite Hq].
    rewrite Hd, Z.add_comm, Z.mul_comm, Z_mod_plus_full. done.
  - transitivity (length (week_of ∘ date <$> df)); [|by rewrite length_fmap].
    rewrite <- (length_fmap (week_of ∘ date) (omap (weekly_bar df) ws)).
    apply submseteq_length, NoDup_submseteq.
    + apply (NoDup_fmap_2_strong _); [|].
      * intros x y Hx Hy Hxy. cbn in Hxy.
        destruct (Hweek x Hx) as [_ Ex], (Hweek y Hy) as [_ Ey].
        rewrite Hxy in Ex. congruence.
      * clear -Hsorted. induction Hsorted as [|x l _ IH Hx]; constructor;
          [|done].
        intros Hin. rewrite Forall_forall in Hx. specialize (Hx x Hin). lia.
    + intros w (x & -> & Hx)%list_elem_of_fmap. destruct (Hweek x Hx) as [_ Ex].
      apply weekly_bar_inv in Ex as (_ & _ & _ & _ & _ & _ & d & Hd & Hw).
      apply list_elem_of_fmap. by exists d.
Qed.

Lemma weekly_bars_shape_witness :
  ∃ weekly,
    resample_daily_to_weekly (Some (bars_of_closes (rising 10))) = Some weekly
    ∧ strictly_ascending weekly ∧ (length weekly ≤ 10)%nat.
Proof.
  eexists. split; [by vm_compute|].
  match goal with
  | |- strictly_ascending ?W ∧ _ =>
      destruct (weekly_bars_shape (bars_of_closes (rising 10)) W)
        as (Hs & _ & Hl); [by vm_compute|]
  end.
  split; [exact Hs|exact Hl].
Defined.

Section resample_again.

Lemma omap_ext_in {A B : Type} (f g : A → option B) (l : list A) :
  (∀ x, x ∈ l → f x = g x) → omap f l = omap g l.
Proof.
  induction l as [|x l IH]; intros Hfg; [done|]. cbn.
  rewrite (Hfg x) by left. rewrite IH; [done|].
  intros y Hy. apply Hfg. by right.
Qed.

Lemma weekly_bar_none (df : list Bar) (w : Z) :
  Forall (λ x, week_of (date x) ≠ w) df → weekly_bar df w = None.
Proof.
  intros Hdf. unfold weekly_bar. rewrite filter_none; [done|].
  intros x Hx. rewrite Forall_forall in Hdf. by apply Hdf.
Qed.

Lemma weekly_bar_skip (b : Bar) (df : list Bar) (w : Z) :
  week_of (date b) ≠ w → weekly_bar (b :: df) w = weekly_bar df w.
Proof. intros Hb. unfold weekly_bar. by rewrite filter_cons_False. Qed.

Lemma weekly_bar_single (b : Bar) (df : list Bar) :
  weekly_wf b →
  Forall (λ x, week_of (date x) ≠ week_of (date b)) df →
  weekly_bar (b :: df) (week_of (date b)) = Some b.
Proof.
  intros (Hd & Ho & Hh & Hl & Hc & q & Hv & Hq) Hdf. unfold weekly_bar.
  rewrite filter_cons_True by done. rewrite filter_none.
  2: { intros x Hx. rewrite Forall_forall in Hdf. by apply Hdf. }
  destruct b as [d o h l c v]. cbn in *. subst v.
  unfold agg_first, agg_max, agg_min, agg_last, agg_sum, observed.
  rewrite !filter_cons_True by done. cbn.
  rewrite ?Ho, ?Hh, ?Hl, ?Hc. cbn.
  destruct (decide (false = false)); [|done]. cbn.
  rewrite ?Ho, ?Hh, ?Hl, ?Hc. cbn. rewrite <- Hd. do 3 f_equal.
  rewrite <- Hq at 2. apply Qred_complete. ring.
Qed.

Lemma omap_weekly_range (n : nat) (a : Z) (W : list Bar) :
  StronglySorted (λ x y, week_of (date x) < week_of (date y)) W →
  Forall weekly_wf W →
  Forall (λ b, a ≤ week_of (date b) < a + Z.of_nat n) W →
  omap (weekly_bar W) (seqZ a (Z.of_nat n)) = W.
Proof.
  revert a W. induction n as [|n IH]; intros a W Hs Hwf Hr.
  { destruct W as [|b W]; [done|]. apply Forall_inv in Hr. lia. }
  rewrite seqZ_cons by lia.
  replace (Z.pred (Z.of_nat (S n))) with (Z.of_nat n) by lia. cbn [omap list_omap].
  destruct W as [|b W].
  { rewrite weekly_bar_none by constructor.
    rewrite (omap_ext_in _ (λ _, None)); [|intros; by apply weekly_bar_none].
    by induction (seqZ _ _). }
  apply StronglySorted_inv in Hs as [Hs Hb].
  apply Forall_cons in Hwf as [Hwb Hwf], Hr as [Hrb Hr].
  destruct (decide (week_of (date b) = a)) as [<-|Hne].
  - rewrite weekly_bar_single; [|done|].
    2: { eapply Forall_impl; [exact Hb|]. cbn. intros; lia. }
    f_equal. rewrite (omap_ext_in _ (weekly_bar W)).
    + apply IH; [done..|]. rewrite Forall_forall in Hb, Hr |- *.
      intros x Hx. specialize (Hb x Hx). specialize (Hr x Hx). lia.
    + intros w Hw%elem_of_seqZ. apply weekly_bar_skip. lia.
  - rewrite weekly_bar_none.
    2: { constructor; [done|]. eapply Forall_impl; [exact Hb|].
         cbn. intros; lia. }
    apply IH; [by constructor|by constructor|].
    constructor; [lia|]. rewrite Forall_forall in Hb, Hr |- *.
    intros x Hx. specialize (Hb x Hx). specialize (Hr x Hx). lia.
Qed.

Lemma foldl_min_le (a : Z) (l : list Z) (x : Z) :
  x ∈ a :: l → foldl Z.min a l ≤ x.
Proof.
  assert (∀ l a, foldl Z.min a l ≤ a) as Hle.
  { clear. induction l as [|y l IH]; intros a; cbn; [lia|].
    etrans; [apply IH|]. lia. }
  revert a. induction l as [|y l IH]; intros a Hx; cbn.
  - apply list_elem_of_singleton in Hx. lia.
  - apply elem_of_cons in Hx as [->|[->|Hx]%elem_of_cons].
    + etrans; [apply Hle|]. lia.
    + etrans; [apply Hle|]. lia.
    + apply IH. by right.
Qed.

Lemma foldl_max_ge (a : Z) (l : list Z) (x : Z) :
  x ∈ a :: l → x ≤ foldl Z.max a l.
Proof.
  assert (∀ l a, a ≤ foldl Z.max a l) as Hle.
  { clear. induction l as [|y l IH]; intros a; cbn; [lia|].
    etrans; [|apply IH]. lia. }
  revert a. induction l as [|y l IH]; intros a Hx; cbn.
  - apply list_elem_of_singleton in Hx. lia.
  - apply elem_of_cons in Hx as [->|[->|Hx]%elem_of_cons].
    + etrans; [|apply Hle]. lia.
    + etrans; [|apply Hle]. lia.
    + apply IH. by right.
Qed.

End resample_again.

(** X8. Resampling is idempotent on what it produces: a non-empty
    weekly frame that comes out of the resampler is returned unchanged
    when it is resampled again. *)
Theorem resample_weekly_again (df : list Bar) (b : Bar) (bs : list Bar) :
  resample_daily_to_weekly (Some df) = Some (b :: bs) →
  resample_daily_to_weekly (Some (b :: bs)) = Some (b :: bs).
Proof.
  intros Hw.
  assert (Forall weekly_wf (b :: bs)
          ∧ StronglySorted (λ x y, week_of (date x) < week_of (date y))
                           (b :: bs)) as [Hwf Hs].
  { unfold resample_daily_to_weekly in Hw. destruct df as [|d ds]; [done|].
    injection Hw as Hw. rewrite <- Hw.
    assert (Forall weekly_wf (omap (weekly_bar (d :: ds)) (seqZ
             (foldl Z.min (week_of (date d)) (map (week_of ∘ date) ds))
             (foldl Z.max (week_of (date d)) (map (week_of ∘ date) ds)
              - foldl Z.min (week_of (date d)) (map (week_of ∘ date) ds) + 1))))
      as Hwf.
    { apply Forall_forall. intros x (w & _ & Hx)%list_elem_of_omap.
      apply weekly_bar_inv in Hx as (Hd & ? & ? & ? & ? & ? & _).
      unfold weekly_wf. rewrite Hd at 1. rewrite Hd, week_of_label. done. }
    split; [done|].
    pose proof (omap_weekly_sorted (d :: ds) _ (seqZ_sorted
      (foldl Z.min (week_of (date d)) (map (week_of ∘ date) ds))
      (foldl Z.max (week_of (date d)) (map (week_of ∘ date) ds)
       - foldl Z.min (week_of (date d)) (map (week_of ∘ date) ds) + 1)))
      as Hsorted.
    revert Hwf Hsorted. generalize (omap (weekly_bar (d :: ds)) (seqZ
      (foldl Z.min (week_of (date d)) (map (week_of ∘ date) ds))
      (foldl Z.max (week_of (date d)) (map (week_of ∘ date) ds)
       - foldl Z.min (week_of (date d)) (map (week_of ∘ date) ds) + 1))).
    intros W HW. induction 1 as [|x l _ IH Hx]; [constructor|].
    apply Forall_cons in HW as [Hxw HW]. constructor; [by apply IH|].
    rewrite Forall_forall in Hx, HW |- *. intros y Hy.
    specialize (Hx y Hy). destruct Hxw as [Ex _].
    destruct (HW y Hy) as [Ey _]. lia. }
  unfold resample_daily_to_weekly. f_equal.
  set (lo := foldl Z.min _ _). set (hi := foldl Z.max _ _).
  assert (∀ x, x ∈ b :: bs → lo ≤ week_of (date x) ≤ hi) as Hrange.
  { intros x Hx.
    assert (week_of (date x)
            ∈ week_of (date b) :: map (week_of ∘ date) bs) as Hin.
    { apply elem_of_cons in Hx as [->|Hx]; [left|right].
      by apply (list_elem_of_fmap_2 (week_of ∘ date)). }
    split; [by apply foldl_min_le | by apply foldl_max_ge]. }
  assert (lo ≤ hi) as Hle by (specialize (Hrange b ltac:(left)); lia).
  rewrite <- (Z2Nat.id (hi - lo + 1)) by lia.
  apply omap_weekly_range; [done..|].
  apply Forall_forall. intros x Hx. specialize (Hrange x Hx). lia.
Qed.

Lemma resample_weekly_again_witness :
  ∃ weekly,
    resample_daily_to_weekly (Some (bars_of_closes (rising 10))) = Some weekly
    ∧ resample_daily_to_weekly (Some weekly) = Some weekly.
Proof.
  eexists. split; [by vm_compute|].
  eapply (resample_weekly_again (bars_of_closes (rising 10))). by vm_compute.
Defined.

(* ------------------------------------------------------------------ *)
(** ** More on the remote store and the local CSV *)
(* ------------------------------------------------------------------ *)

Section store_more.
Context `{Sorting}.

Lemma read_csv_unserved (net : Net) (token : string) (w : GitHub) :
  served (on_raw net) = false → served (on_api net) = false →
  (read_csv_from_github net token w).1 = [].
Proof.
  intros Hraw Hapi.
  unfold read_csv_from_github, http_get, bind, ret, send, others_write.
  destruct net as [[i1 s1] [i2 s2] ? ?]. cbn in *. subst s1 s2.
  by destruct i1, i2.
Qed.

(** X9. The merge replaces by date: its result is sorted by date, and
    for every date it holds the rows of the snapshot when the snapshot
    brings that date, and the rows that were there otherwise. *)
Theorem merge_frames_by_date (existing new_data : list Row) (d : string) :
  sorted_by_date (merge_frames existing new_data)
  ∧ on_date d (merge_frames existing new_data)
    ≡ₚ (if decide (d ∈ dates_of new_data) then on_date d new_data
        else on_date d existing).
Proof.
  split; [apply merge_frames_sorted|].
  case_decide as Hd.
  - by apply merge_frames_replaces.
  - by apply merge_frames_preserves.
Qed.

(** X11. Over a quiet network a merge of a non-empty snapshot succeeds
    with three requests: one read of the raw file, one SHA lookup and
    one PUT, which carries the merged frame and the SHA of the file as
    it was (none when there was no file).  The dataset is then sorted
    by date and holds every row of the snapshot. *)
Theorem append_quiet_outcome (token : string) (rows : list Row) (w : GitHub) :
  rows ≠ [] →
  let result := append_data_to_github quiet token (Some rows) w in
  result.1 = true
  ∧ sorted_by_date (dataset result.2)
  ∧ (∀ r, r ∈ rows → r ∈ dataset result.2)
  ∧ ∃ message,
      requests result.2
      = requests w
        ++ [GET_raw token; GET_contents token;
            PUT_contents token message (merge_frames (dataset w) rows)
                         (rf_sha <$> remote w)].
Proof.
  intros Hrows. cbv zeta.
  destruct (append_quiet token rows w Hrows) as (w' & E & Hw').
  rewrite E. cbn [fst snd]. split_and!; [done|..].
  - rewrite Hw'. apply merge_frames_sorted.
  - intros r Hr. rewrite Hw', merge_frames_perm. apply elem_of_app. by right.
  - destruct rows as [|r rows]; [done|].
    unfold append_data_to_github, read_csv_from_github, write_csv_to_github,
      _get_file_sha, http_get, http_put, bind, ret, send, others_write,
      commit, dataset in E |- *.
    destruct w as [[f|] n log]; cbn in E |- *.
    + destruct (merge_frames (rf_rows f) (r :: rows)) as [|m ms] eqn:Em;
        [by apply merge_frames_nonempty in Em|].
      cbn in E. rewrite decide_True in E by done. injection E as <-. cbn.
      eexists. by rewrite <- !app_assoc.
    + destruct (merge_frames [] (r :: rows)) as [|m ms] eqn:Em;
        [by apply merge_frames_nonempty in Em|].
      cbn in E. injection E as <-. cbn.
      eexists. by rewrite <- !app_assoc.
Qed.

(** X13. When both reads of the file fail, the merge takes the file
    for empty: if the SHA lookup and the PUT then go through, the merge
    reports success and the dataset is the sorted snapshot alone; what
    was stored before is gone. *)
Theorem append_after_failed_reads (net : Net) (token : string)
    (rows : list Row) (w : GitHub) :
  rows ≠ [] →
  served (on_raw net) = false → served (on_api net) = false →
  intervening (on_put net) = None →
  served (on_sha net) = true → served (on_put net) = true →
  let result := append_data_to_github net token (Some rows) w in
  result.1 = true ∧ dataset result.2 = sort_by date_leb rows.
Proof.
  intros Hrows Hraw Hapi Hput Hsha Hserved. cbv zeta.
  destruct rows as [|r rows]; [done|].
  destruct (append_unfold net token r rows w) as [message ->].
  rewrite read_csv_unserved by done.
  edestruct write_csv_accepted as (w' & -> & Hw');
    [|exact Hput|exact Hsha|exact Hserved|done].
  by apply merge_frames_nonempty.
Qed.

End store_more.

(** X12. A read does not write.  When no other writer commits during
    the read, the file is as before; the read sends the raw request
    and, only if that fails in transport, the API request; it returns
    the dataset if one of the requests it sent was served and the empty
    frame otherwise. *)
Theorem read_csv_read_only (net : Net) (token : string) (w : GitHub) :
  intervening (on_raw net) = None → intervening (on_api net) = None →
  let result := read_csv_from_github net token w in
  remote result.2 = remote w
  ∧ fresh_sha result.2 = fresh_sha w
  ∧ result.1
    = (if served (on_raw net) || served (on_api net) then dataset w else [])
  ∧ requests result.2
    = requests w ++ (if served (on_raw net) then [GET_raw token]
                     else [GET_raw token; GET_contents token]).
Proof.
  intros Hraw Hapi. cbv zeta.
  unfold read_csv_from_github, http_get, bind, ret, send, others_write,
    dataset.
  destruct net as [[i1 s1] [i2 s2] ? ?], w as [[f|] n log]; cbn in *;
    subst i1 i2; destruct s1, s2; cbn; by rewrite <- ?app_assoc.
Qed.

Lemma read_csv_read_only_witness :
  let result := read_csv_from_github reads_fail "t" before_race in
  remote result.2 = remote before_race
  ∧ result.1 = []
  ∧ requests result.2 = [GET_raw "t"; GET_contents "t"].
Proof.
  cbv zeta.
  destruct (read_csv_read_only reads_fail "t" before_race)
    as (Hr & _ & Hd & Hq); [reflexivity..|].
  split_and!; [exact Hr|exact Hd|exact Hq].
Defined.

(** X14. An update needs the SHA.  When the file exists and the SHA
    lookup fails in transport, the PUT goes out without a SHA and the
    write returns [False], whatever else happens; if no other writer
    commits meanwhile, the file is as before. *)
Theorem write_csv_sha_lookup_failed (net : Net) (token message : string)
    (rows : list Row) (w : GitHub) :
  rows ≠ [] → is_Some (remote w) → served (on_sha net) = false →
  let result := write_csv_to_github net token (Some rows) message w in
  result.1 = false
  ∧ (∃ message', last (requests result.2)
                 = Some (PUT_contents token message' rows None))
  ∧ (intervening (on_sha net) = None → intervening (on_put net) = None →
     remote result.2 = remote w).
Proof.
  intros Hrows [f Hf] Hsha. cbv zeta.
  unfold write_csv_to_github, _get_file_sha, http_get, http_put, bind, ret,
    send, others_write, commit.
  destruct rows as [|r rows]; [done|].
  destruct net as [? ? [i3 s3] [i4 s4]], w as [rem n log].
  cbn in *. subst rem s3.
  destruct i3, i4, s4; cbn; split_and!; try done;
    try (eexists; by rewrite last_snoc).
Qed.

Lemma write_csv_sha_lookup_failed_witness :
  let result :=
    write_csv_to_github sha_lookup_fails "t" (Some [monday_row]) "" before_race
  in result.1 = false ∧ remote result.2 = remote before_race.
Proof.
  cbv zeta.
  destruct (write_csv_sha_lookup_failed sha_lookup_fails "t" "" [monday_row]
              before_race) as (Hr & _ & Hd); [done|by eexists|reflexivity|].
  split; [exact Hr|]. apply Hd; reflexivity.
Defined.

Lemma append_quiet_outcome_witness :
  let result := append_data_to_github quiet "t" (Some [monday_row]) before_race
  in result.1 = true ∧ monday_row ∈ dataset result.2.
Proof.
  cbv zeta.
  destruct (append_quiet_outcome "t" [monday_row] before_race)
    as (Hr & _ & Hin & _); [done|].
  split; [exact Hr|]. apply Hin. left.
Defined.

Lemma append_after_failed_reads_witness :
  let result :=
    append_data_to_github reads_fail "t" (Some [monday_row]) before_race in
  result.1 = true ∧ dataset result.2 = [monday_row].
Proof.
  exact (append_after_failed_reads reads_fail "t" [monday_row] before_race
           ltac:(done) eq_refl eq_refl eq_refl eq_refl eq_refl).
Defined.

Lemma merge_frames_keys_unique_witness :
  one_row_per_key (merge_frames [thursday_row] [monday_row; friday_row]).
Proof.
  apply (merge_frames_keys_unique [thursday_row] [monday_row; friday_row]);
    unfold one_row_per_key; apply (bool_decide_unpack _); by vm_compute.
Defined.

(* ------------------------------------------------------------------ *)

(** X16. Saving a snapshot whose rows all carry one date a second time
    leaves the local file as the first save made it. *)
Theorem save_to_csv_again (r : Row) (rows : list Row) (csv_path : string)
    (fs : gmap string (list Row)) :
  Forall (λ x, row_date x = row_date r) rows →
  save_to_csv (Some (r :: rows)) csv_path
              (save_to_csv (Some (r :: rows)) csv_path fs)
  = save_to_csv (Some (r :: rows)) csv_path fs.
Proof.
  intros Hdate. unfold save_to_csv at 1 2.
  assert (filter (λ x, row_date x ≠ row_date r) (r :: rows) = []) as Hnew.
  { apply filter_none. intros x Hx Hne. apply Hne.
    apply elem_of_cons in Hx as [->|Hx]; [done|].
    rewrite Forall_forall in Hdate. by apply Hdate. }
  cbn [save_to_csv]. rewrite lookup_insert_eq, insert_insert_eq. f_equal.
  destruct (fs !! csv_path) as [existing|].
  - rewrite filter_app, Hnew, app_nil_r. f_equal.
    rewrite list_filter_filter. apply list_filter_iff. intros x. tauto.
  - by rewrite Hnew.
Qed.

Lemma save_to_csv_again_witness :
  save_to_csv (Some [friday_row]) local_path
    (save_to_csv (Some [friday_row]) local_path {[ local_path := [thursday_row] ]})
  = save_to_csv (Some [friday_row]) local_path {[ local_path := [thursday_row] ]}.
Proof. apply (save_to_csv_again friday_row [] local_path). constructor. Defined.

Lemma save_to_csv_single_date_witness :
  one_row_per_key
    (load_from_csv local_path
       (save_to_csv (Some [friday_row; friday_other]) local_path
                    {[ local_path := [thursday_row; friday_row] ]})).
Proof.
  apply (save_to_csv_single_date friday_row [friday_other]
           [thursday_row; friday_row] local_path);
    [reflexivity| | |by repeat constructor];
    unfold one_row_per_key; apply (bool_decide_unpack _); by vm_compute.
Defined.

(* ------------------------------------------------------------------ *)
(** ** More on the pools and the run *)
(* ------------------------------------------------------------------ *)

Section pool_reports.
Context (max_workers : nat) (report_of : nat → option progress_event).

Lemma step_reports (n : nat) (a : action) (st : pool_state) :
  a ∈ enabled max_workers st →
  (counter st + length (queue st) + length (running st) = n)%nat
  ∧ reports_of st ≡ₚ omap report_of (seq 1 (counter st)) →
  (counter (step report_of a st) + length (queue (step report_of a st))
   + length (running (step report_of a st)) = n)%nat
  ∧ reports_of (step report_of a st)
    ≡ₚ omap report_of (seq 1 (counter (step report_of a st))).
Proof.
  intros Ha%enabled_inv [Hn Hrep]. unfold reports_of, step in *.
  destruct a as [|j|j].
  - destruct (queue st) as [|c q] eqn:Eq; [done|]. cbn in *.
    rewrite length_app. cbn. split; [lia|done].
  - destruct Ha as [code Hc]. rewrite Hc.
    assert (length (delete j (running st)) = length (running st) - 1)%nat
      as Hlen by (by apply length_delete).
    apply lookup_lt_Some in Hc.
    destruct (report_of (S (counter st))) as [ev|] eqn:Er;
      cbn [counter queue running reporting delivered];
      rewrite seq_S, omap_app; cbn [omap list_omap Nat.add]; rewrite Er.
    + split; [lia|]. by rewrite fmap_app, app_assoc, Hrep.
    + split; [lia|]. by rewrite app_nil_r.
  - destruct Ha as [[code ev] Hc]. rewrite Hc. cbn. split; [done|].
    rewrite <- Hrep. pose proof (delete_Permutation _ _ _ Hc) as Hp.
    rewrite Hp at 2. cbn. solve_Permutation.
Qed.

Lemma thread_pool_reports (codes : list string) (choices : list nat) :
  (0 < max_workers)%nat →
  let pool := thread_pool max_workers report_of codes choices in
  counter pool = length codes
  ∧ delivered pool ≡ₚ omap report_of (seq 1 (length codes)).
Proof.
  intros Hw pool.
  assert ((counter pool + length (queue pool) + length (running pool)
           = length codes)%nat
          ∧ reports_of pool ≡ₚ omap report_of (seq 1 (counter pool)))
    as [Hn Hrep].
  { apply (run_pool_invariant max_workers report_of
             (λ st, (counter st + length (queue st) + length (running st)
                     = length codes)%nat
                    ∧ reports_of st ≡ₚ omap report_of (seq 1 (counter st)))).
    - intros a st. apply step_reports.
    - done. }
  assert (enabled max_workers pool = []) as Hend.
  { apply run_pool_drained; [done|]. unfold weight. cbn. lia. }
  clearbody pool. apply enabled_nil in Hend as (Hq & Hr & Hp); [|done].
  unfold reports_of in Hrep. rewrite Hq, Hr in Hn. rewrite Hp in Hrep.
  cbn in Hn, Hrep. rewrite app_nil_r in Hrep.
  assert (counter pool = length codes) as Hc by lia.
  split; [done|]. by rewrite Hrep, Hc.
Qed.

End pool_reports.

(** X17. What the callback receives from a pool does not depend on the
    schedule, but for the order: from the K-line pool the reports of the
    counts 1..n that are multiples of 50 or equal to n, each once, and
    likewise from the fee pool over the codes missing in the cache. *)
Theorem pool_reports_any_schedule (ETF_CODES : list string) (w : World) :
  let n := length ETF_CODES in
  let m := length (missing_fee_codes ETF_CODES w) in
  delivered (daily_pool ETF_CODES w) ≡ₚ omap (daily_report n) (seq 1 n)
  ∧ delivered (fee_pool ETF_CODES w) ≡ₚ omap (fee_report m) (seq 1 m).
Proof.
  cbv zeta. split.
  - apply thread_pool_reports. lia.
  - unfold fee_pool. destruct (missing_fee_codes ETF_CODES w) as [|c l]; [done|].
    apply (thread_pool_reports 8 _ (c :: l)). lia.
Qed.

Section run_more.
Context `{Sorting}.


Lemma daily_kline_ascending (src : string → quote_reply) (code : string)
    (df : list Bar) :
  get_etf_daily_kline_sina src code = Some df → ascending df.
Proof.
  unfold get_etf_daily_kline_sina.
  destruct (src _) as [|[[|r raw]|]]; [done| | |done].
  - intros [= <-]. constructor.
  - destruct (mapM parse_bar (r :: raw)) as [parsed|]; [|done].
    intros [= <-]. apply sort_by_date_ascending.
Qed.

Lemma last_cons_default {A : Type} (l : list A) (x d : A) :
  List.last (x :: l) d = List.last l x.
Proof.
  revert x d. induction l as [|y l IH]; intros x d; [done|].
  change (List.last (x :: y :: l) d) with (List.last (y :: l) d).
  by rewrite !(IH y).
Qed.

Lemma ascending_last (b : Bar) (bs : list Bar) :
  ascending (b :: bs) →
  List.last bs b ∈ b :: bs
  ∧ Forall (λ x, date x ≤ date (List.last bs b)) (b :: bs).
Proof.
  revert b. induction bs as [|c bs IH]; intros b Hs.
  - cbn. split; [left|]. constructor; [lia|constructor].
  - apply StronglySorted_inv in Hs as [Hs Hb].
    destruct (IH c Hs) as [Hin Hle].
    rewrite last_cons_default.
    split; [by right|]. constructor; [|done].
    apply Forall_inv in Hb. apply Forall_inv in Hle. lia.
Qed.


(** X20. Name and fees of a row.  When the name table cannot be
    fetched the name is the code.  A cached fee entry is used as it is,
    whatever the fee page says; without one, a failed page fetch gives
    N/A twice and a served one what the page shows, N/A for a rate it
    does not show. *)
Theorem row_name_and_fees (ETF_CODES : list string) (w : World)
    (i : nat) (code : string) :
  ETF_CODES !! i = Some code →
  ∃ row,
    snapshot (fetch_all_etf_data ETF_CODES w) !! i = Some row
    ∧ (fund_name_em w = None → row_name row = code)
    ∧ (∀ entry, fees_cache_file w !! code = Some entry →
         row_mgmt_fee row = default NA (entry !! "mgmt")
         ∧ row_custody_fee row = default NA (entry !! "custody"))
    ∧ (fees_cache_file w !! code = None →
       match eastmoney w code with
       | None => row_mgmt_fee row = NA ∧ row_custody_fee row = NA
       | Some (mgmt, custody) =>
           row_mgmt_fee row = default NA mgmt
           ∧ row_custody_fee row = default NA custody
       end).
Proof.
  intros Hi. unfold fetch_all_etf_data. cbn [snapshot].
  exists (build_row ETF_CODES w code).
  split; [by rewrite list_lookup_fmap, Hi|].
  rewrite build_row_unfold by (by eapply list_elem_of_lookup_2). cbv zeta.
  destruct (calculate_ma60_relation _) as [[[? ?] ?] ?].
  destruct (calculate_weekly_macd _) as [[[? ?] ?] ?]. cbn.
  unfold fee_entry, get_fund_fees_scrape. split_and!.
  - by intros ->.
  - by intros entry ->.
  - intros ->. by destruct (eastmoney w code) as [[mgmt custody]|].
Qed.

End run_more.


Lemma row_name_and_fees_witness :
  ∃ row,
    snapshot (fetch_all_etf_data two_codes scenario) !! 1%nat = Some row
    ∧ row_name row = "510001"
    ∧ row_mgmt_fee row = NA ∧ row_custody_fee row = NA.
Proof.
  destruct (row_name_and_fees two_codes scenario 1 "510001")
    as (row & Hrow & Hname & _ & Hfee); [reflexivity|].
  exists row. split; [exact Hrow|]. split; [by apply Hname|].
  by apply Hfee.
Defined.

(** X21. A failed scrape is cached.  The cache a run leaves has an
    entry for every code of the universe, N/A twice for a code whose
    fee page could not be fetched; a later run that loads this cache
    scrapes nothing, so its fee pool reports nothing and its rows show
    the cached fees whatever the fee pages say by then. *)
Theorem failed_scrape_is_cached (ETF_CODES : list string) (w w' : World) :
  fees_cache_file w' = fees_cache ETF_CODES w →
  missing_fee_codes ETF_CODES w' = []
  ∧ delivered (fee_pool ETF_CODES w') = []
  ∧ ∀ code, code ∈ ETF_CODES →
      fee_entry w' code = fee_entry w code
      ∧ (fees_cache_file w !! code = None → eastmoney w code = None →
         fees_cache_file w' !! code
         = Some {[ "mgmt" := NA; "custody" := NA ]}).
Proof.
  intros Hcache.
  assert (missing_fee_codes ETF_CODES w' = []) as Hmiss.
  { unfold missing_fee_codes. apply filter_none. intros code Hc.
    by rewrite Hcache, fees_cache_lookup. }
  split_and!; [done|unfold fee_pool; by rewrite Hmiss|].
  intros code Hc. split.
  - unfold fee_entry at 1. by rewrite Hcache, fees_cache_lookup.
  - intros Hnone Hfail. rewrite Hcache, fees_cache_lookup by done.
    unfold fee_entry, get_fund_fees_scrape. by rewrite Hnone, Hfail.
Qed.

Lemma failed_scrape_is_cached_witness :
  missing_fee_codes two_codes scenario_again = []
  ∧ fee_entry scenario_again "510001" = {[ "mgmt" := NA; "custody" := NA ]}.
Proof.
  destruct (failed_scrape_is_cached two_codes scenario scenario_again)
    as (Hmiss & _ & Hentry); [reflexivity|].
  split; [exact Hmiss|].
  destruct (Hentry "510001") as [-> _]; [right; left|by vm_compute].
Defined.

(* ------------------------------------------------------------------ *)
(** ** The app and the scheduled update *)
(* ------------------------------------------------------------------ *)

(** X22. What [load_data] returns is what the local cache holds
    afterwards.  It returns what the repository read gives when there
    is a token and the read is not empty, and the local cache
    otherwise; no other file is touched, and without a token no
    request is sent. *)
Theorem load_data_outcome (secret env : option string) (net : Net)
    (m : Machine) :
  let result := load_data secret env net m in
  let read :=
    match get_github_token secret env with
    | Some token => (read_csv_from_github net token (github m)).1
    | None => []
    end in
  result.1 = (if decide (read = []) then load_from_csv LOCAL_CSV_PATH (files m)
              else read)
  ∧ load_from_csv LOCAL_CSV_PATH (files result.2) = result.1
  ∧ (∀ p, p ≠ LOCAL_CSV_PATH → files result.2 !! p = files m !! p)
  ∧ (get_github_token secret env = None → github result.2 = github m).
Proof.
  cbv zeta. unfold load_data.
  destruct (get_github_token secret env) as [token|]; [|done].
  destruct (read_csv_from_github net token (github m)) as [[|r df] gh];
    cbn [fst snd files github]; [done|].
  rewrite decide_False by done. split_and!; [done| |..|done].
  - unfold load_from_csv. by rewrite lookup_insert_eq.
  - intros p Hp. by rewrite lookup_insert_ne.
Qed.

Section app.
Context `{Sorting}.

Lemma progress_unfold (ETF_CODES : list string) (w : World) :
  progress (fetch_all_etf_data ETF_CODES w)
  = before_completion ETF_CODES w ++ [(1.0%Q, "数据获取完成！")].
Proof.
  unfold fetch_all_etf_data, before_completion. cbn [progress].
  by rewrite <- !app_assoc.
Qed.


Lemma date_geb_total (a b : string) : date_geb a b = true ∨ date_geb b a = true.
Proof. unfold date_geb. destruct (String.leb_total a b); auto. Qed.

Lemma date_geb_trans (a b c : string) :
  date_geb a b = true → date_geb b c = true → date_geb a c = true.
Proof. unfold date_geb. intros Hab Hbc. by eapply string_leb_trans. Qed.

(** X24. The date picker opens on the latest date of the data: when
    there is data a date is selected, some row carries it and no row
    has a later one, so the page for it is never the empty one. *)
Theorem selected_date_is_latest (all_data : list Row) :
  all_data ≠ [] →
  ∃ d, selected_date all_data = Some d
       ∧ on_date d all_data ≠ []
       ∧ Forall (λ r, String.leb (row_date r) d = true) all_data.
Proof.
  intros Hne. unfold selected_date. destruct all_data as [|r0 rows]; [done|].
  set (dates := remove_dups (map row_date (r0 :: rows))).
  pose proof (sort_by_perm _ date_geb dates) as Hperm.
  pose proof (sort_by_sorted _ date_geb dates date_geb_total date_geb_trans)
    as Hsorted.
  assert (row_date r0 ∈ dates) as Hin0.
  { unfold dates. rewrite elem_of_remove_dups. left. }
  destruct (sort_by date_geb dates) as [|d ds] eqn:Esort.
  { rewrite <- Hperm in Hin0. by apply elem_of_nil in Hin0. }
  exists d. split; [done|].
  apply StronglySorted_inv in Hsorted as [_ Hd].
  assert (d ∈ map row_date (r0 :: rows)) as Hd_in.
  { rewrite <- elem_of_remove_dups. fold dates. rewrite <- Hperm. left. }
  split.
  - apply list_elem_of_fmap in Hd_in as (r & -> & Hr).
    intros Hnil. assert (r ∈ on_date (row_date r) (r0 :: rows)) as Hin.
    { by apply list_elem_of_filter. }
    rewrite Hnil in Hin. by apply elem_of_nil in Hin.
  - apply Forall_forall. intros r Hr.
    assert (row_date r ∈ d :: ds) as Hin.
    { rewrite Hperm. unfold dates. rewrite elem_of_remove_dups.
      by apply (list_elem_of_fmap_2 row_date). }
    apply elem_of_cons in Hin as [->|Hin]; [apply string_leb_refl|].
    rewrite Forall_forall in Hd. by apply Hd.
Qed.

(** X25. The scheduled update persists nothing.  Whatever the token,
    the quotes, the network and the schedules, [main] ends with exit
    status 1 and the machine as it was: no CSV file is written and no
    request is sent to the repository, because the statistics evaluate
    the name [pd], which the module does not bind, before the snapshot
    is saved.  (The fee cache, which the fetch itself writes, is not
    part of the machine.) *)
Theorem update_data_persists_nothing (ETF_CODES : list string) (w : World)
    (secret env : option string) (net : Net) (m : Machine) :
  update_data_main ETF_CODES w secret env net m = (1, m).
Proof.
  unfold update_data_main.
  destruct (get_github_token secret env) as [token|]; [|done].
  destruct (snapshot (fetch_all_etf_data ETF_CODES w)) as [|r rows]; [done|].
  assert (load_global "pd" = inl (NameError "pd")) as ->; [|done].
  unfold load_global. apply decide_False. unfold update_data_globals.
  rewrite !elem_of_cons, elem_of_nil. intros Hin.
  repeat (destruct Hin as [Hin|Hin]; [discriminate Hin|]). done.
Qed.

End app.


Lemma selected_date_is_latest_witness :
  ∃ d, selected_date [thursday_row; monday_row; friday_row] = Some d
       ∧ on_date d [thursday_row; monday_row; friday_row] ≠ []
       ∧ Forall (λ r, String.leb (row_date r) d = true)
                [thursday_row; monday_row; friday_row].
Proof.
  apply (selected_date_is_latest [thursday_row; monday_row; friday_row]).
  done.
Defined.
